(** * dotnes scripts: the 6502 disassembler and the ROM comparison helper

    A shallow embedding of [scripts/disasm.py] and [scripts/compare_rom.py].
    Python integers are [Z], a [bytes] object is a [list byte], a [str] is a
    [string] (code points below 256), a [dict] is a [gmap], a list updated by
    index is a [list] with stdpp's insert, and a raised [IndexError] is a
    value of the error monad [res]. *)

From Stdlib Require Import ZArith NArith Ascii String List Lia Sorted.
From Stdlib Require Import Init.Byte Strings.Byte.
From stdpp Require Import base option list gmap strings.

Local Open Scope string_scope.
Local Open Scope list_scope.
Local Open Scope Z_scope.

(* ===================================================================== *)
(** ** The Python operations the two scripts use *)
(* ===================================================================== *)

Module Py.

(** Exceptions the scripts can raise. Subscripting [bytes] or a list out of
    range raises [IndexError]; nothing in the two scripts catches it. *)
Inductive exn : Type := IndexError.

Inductive res (A : Type) : Type :=
| Ok (a : A)
| Raise (e : exn).
Arguments Ok {A} a.
Arguments Raise {A} e.

(** Sequencing: an exception raised by the first computation is the
    outcome of the whole. Used below through stdpp's [x ← m; k]. *)
#[export] Instance res_ret : MRet res := fun A a => Ok a.
#[export] Instance res_bind : MBind res := fun A B k m =>
  match m with
  | Ok a => k a
  | Raise e => Raise e
  end.

Definition of_option {A : Type} (o : option A) : res A :=
  match o with
  | Some a => Ok a
  | None => Raise IndexError
  end.

(** The integer value of an element of a [bytes] object. *)
Definition byte_val (b : byte) : Z := Z.of_N (Byte.to_N b).

(** [len(x)] *)
Definition len {A : Type} (l : list A) : Z := Z.of_nat (length l).

(** [seq[i]]: a negative index counts from the end; out of range raises. *)
Definition getitem {A : Type} (l : list A) (i : Z) : res A :=
  if 0 <=? i then of_option (l !! Z.to_nat i)
  else if - len l <=? i then of_option (l !! Z.to_nat (len l + i))
  else Raise IndexError.

(** How a slice bound is clipped into [0, len]. *)
Definition clip (n i : Z) : Z :=
  if i <? 0 then Z.max (i + n) 0 else Z.min i n.

(** [seq[lo:hi]]: never raises. *)
Definition slice {A : Type} (l : list A) (lo hi : Z) : list A :=
  let a := clip (len l) lo in
  let b := clip (len l) hi in
  take (Z.to_nat (b - a)) (drop (Z.to_nat a) l).

(** Upper-case hexadecimal digits of a natural number, most significant
    first, as ['%X'] prints them. *)
Fixpoint upper_hex (u : Hexadecimal.uint) : string :=
  match u with
  | Hexadecimal.Nil => ""
  | Hexadecimal.D0 u => String "0" (upper_hex u)
  | Hexadecimal.D1 u => String "1" (upper_hex u)
  | Hexadecimal.D2 u => String "2" (upper_hex u)
  | Hexadecimal.D3 u => String "3" (upper_hex u)
  | Hexadecimal.D4 u => String "4" (upper_hex u)
  | Hexadecimal.D5 u => String "5" (upper_hex u)
  | Hexadecimal.D6 u => String "6" (upper_hex u)
  | Hexadecimal.D7 u => String "7" (upper_hex u)
  | Hexadecimal.D8 u => String "8" (upper_hex u)
  | Hexadecimal.D9 u => String "9" (upper_hex u)
  | Hexadecimal.Da u => String "A" (upper_hex u)
  | Hexadecimal.Db u => String "B" (upper_hex u)
  | Hexadecimal.Dc u => String "C" (upper_hex u)
  | Hexadecimal.Dd u => String "D" (upper_hex u)
  | Hexadecimal.De u => String "E" (upper_hex u)
  | Hexadecimal.Df u => String "F" (upper_hex u)
  end.

Fixpoint repeat_char (c : ascii) (n : nat) : string :=
  match n with
  | O => ""
  | S n => String c (repeat_char c n)
  end.

(** ['%0wX' % v]: the sign first, then zeros up to width [w], then the
    digits of the magnitude. *)
Definition pct_0X (w : nat) (v : Z) : string :=
  let digits := upper_hex (N.to_hex_uint (Z.to_N (Z.abs v))) in
  if v <? 0
  then String "-" (repeat_char "0" (w - 1 - String.length digits) +:+ digits)
  else repeat_char "0" (w - String.length digits) +:+ digits.

Definition pct_02X : Z -> string := pct_0X 2.
Definition pct_04X : Z -> string := pct_0X 4.

(** ['%-ws' % s]: pad with spaces on the right up to width [w]. *)
Definition pct_ljust (w : nat) (s : string) : string :=
  s +:+ repeat_char " " (w - String.length s).

(** [' '.join(xs)] *)
Fixpoint join_space (xs : list string) : string :=
  match xs with
  | [] => ""
  | [x] => x
  | x :: rest => x +:+ " " +:+ join_space rest
  end.

(** [c.isspace()] for a code point below 256: TAB, LF, VT, FF, CR, the four
    separators FS GS RS US, the space, NEL and the no-break space. *)
Definition isspace (c : ascii) : bool :=
  let n := N_of_ascii c in
  ((9 <=? n) && (n <=? 13) || (28 <=? n) && (n <=? 32)
   || (n =? 133) || (n =? 160))%N.

Definition flush (cur : string) : list string :=
  match cur with
  | "" => []
  | _ => [cur]
  end.

(** [s.split()]: the maximal runs of non-blank characters, in order. [cur]
    is the run being read. *)
Fixpoint split_from (cur : string) (s : string) : list string :=
  match s with
  | "" => flush cur
  | String c s' =>
      if isspace c then flush cur ++ split_from "" s'
      else split_from (cur +:+ String c "") s'
  end.

Definition split (s : string) : list string := split_from "" s.

(** [s.startswith('$')] *)
Definition startswith_dollar (s : string) : bool :=
  match s with
  | String c _ => Ascii.eqb c "$"
  | "" => false
  end.

(** [x in (a, b, ...)] on strings. *)
Definition str_in (x : string) (xs : list string) : bool :=
  existsb (String.eqb x) xs.

(** [s[i:i+len(sub)] == sub] *)
Definition starts_at (s sub : list byte) (i : Z) : bool :=
  if List.list_eq_dec Byte.byte_eq_dec (slice s i (i + len sub)) sub
  then true else false.

(** The first of the [n] positions [i], [i + 1], ... at which [sub] is
    found, or -1. *)
Fixpoint find_at (s sub : list byte) (i : Z) (n : nat) : Z :=
  match n with
  | O => -1
  | S n => if starts_at s sub i then i else find_at s sub (i + 1) n
  end.

(** [s.find(sub, start)]: a negative [start] counts from the end; the
    lowest index from [start] on at which [sub] is found whole, or -1. *)
Definition find (s sub : list byte) (start : Z) : Z :=
  let start := if start <? 0 then Z.max (start + len s) 0 else start in
  if len s - start <? len sub then -1
  else find_at s sub start (Z.to_nat (len s - start - len sub + 1)).

End Py.

Import Py.


(* ===================================================================== *)
(** ** scripts/disasm.py *)
(* ===================================================================== *)

Module Disasm.

(** The entries of the [OPCODES] dict literal, in source order:
    opcode byte, then (mnemonic, addressing mode, instruction size). *)
Definition OPCODES_items : list (Z * (string * string * Z)) :=
  [
    (0x00, ("BRK", "imp", 1)); (0x01, ("ORA", "inx", 2)); (0x05, ("ORA", "zpg", 2));
    (0x06, ("ASL", "zpg", 2)); (0x08, ("PHP", "imp", 1)); (0x09, ("ORA", "imm", 2));
    (0x0a, ("ASL", "acc", 1)); (0x0d, ("ORA", "abs", 3)); (0x0e, ("ASL", "abs", 3));
    (0x10, ("BPL", "rel", 2)); (0x11, ("ORA", "iny", 2)); (0x15, ("ORA", "zpx", 2));
    (0x16, ("ASL", "zpx", 2)); (0x18, ("CLC", "imp", 1)); (0x19, ("ORA", "aby", 3));
    (0x1d, ("ORA", "abx", 3)); (0x1e, ("ASL", "abx", 3));
    (0x20, ("JSR", "abs", 3)); (0x21, ("AND", "inx", 2)); (0x24, ("BIT", "zpg", 2));
    (0x25, ("AND", "zpg", 2)); (0x26, ("ROL", "zpg", 2)); (0x28, ("PLP", "imp", 1));
    (0x29, ("AND", "imm", 2)); (0x2a, ("ROL", "acc", 1)); (0x2c, ("BIT", "abs", 3));
    (0x2d, ("AND", "abs", 3)); (0x2e, ("ROL", "abs", 3));
    (0x30, ("BMI", "rel", 2)); (0x31, ("AND", "iny", 2)); (0x35, ("AND", "zpx", 2));
    (0x36, ("ROL", "zpx", 2)); (0x38, ("SEC", "imp", 1)); (0x39, ("AND", "aby", 3));
    (0x3d, ("AND", "abx", 3)); (0x3e, ("ROL", "abx", 3));
    (0x40, ("RTI", "imp", 1)); (0x41, ("EOR", "inx", 2)); (0x45, ("EOR", "zpg", 2));
    (0x46, ("LSR", "zpg", 2)); (0x48, ("PHA", "imp", 1)); (0x49, ("EOR", "imm", 2));
    (0x4a, ("LSR", "acc", 1)); (0x4c, ("JMP", "abs", 3)); (0x4d, ("EOR", "abs", 3));
    (0x4e, ("LSR", "abs", 3));
    (0x50, ("BVC", "rel", 2)); (0x51, ("EOR", "iny", 2)); (0x55, ("EOR", "zpx", 2));
    (0x56, ("LSR", "zpx", 2)); (0x58, ("CLI", "imp", 1)); (0x59, ("EOR", "aby", 3));
    (0x5d, ("EOR", "abx", 3)); (0x5e, ("LSR", "abx", 3));
    (0x60, ("RTS", "imp", 1)); (0x61, ("ADC", "inx", 2)); (0x65, ("ADC", "zpg", 2));
    (0x66, ("ROR", "zpg", 2)); (0x68, ("PLA", "imp", 1)); (0x69, ("ADC", "imm", 2));
    (0x6a, ("ROR", "acc", 1)); (0x6c, ("JMP", "ind", 3)); (0x6d, ("ADC", "abs", 3));
    (0x6e, ("ROR", "abs", 3));
    (0x70, ("BVS", "rel", 2)); (0x71, ("ADC", "iny", 2)); (0x75, ("ADC", "zpx", 2));
    (0x76, ("ROR", "zpx", 2)); (0x78, ("SEI", "imp", 1)); (0x79, ("ADC", "aby", 3));
    (0x7d, ("ADC", "abx", 3)); (0x7e, ("ROR", "abx", 3));
    (0x81, ("STA", "inx", 2)); (0x84, ("STY", "zpg", 2)); (0x85, ("STA", "zpg", 2));
    (0x86, ("STX", "zpg", 2)); (0x88, ("DEY", "imp", 1)); (0x8a, ("TXA", "imp", 1));
    (0x8c, ("STY", "abs", 3)); (0x8d, ("STA", "abs", 3)); (0x8e, ("STX", "abs", 3));
    (0x90, ("BCC", "rel", 2)); (0x91, ("STA", "iny", 2)); (0x94, ("STY", "zpx", 2));
    (0x95, ("STA", "zpx", 2)); (0x96, ("STX", "zpy", 2)); (0x98, ("TYA", "imp", 1));
    (0x99, ("STA", "aby", 3)); (0x9a, ("TXS", "imp", 1)); (0x9d, ("STA", "abx", 3));
    (0xa0, ("LDY", "imm", 2)); (0xa1, ("LDA", "inx", 2)); (0xa2, ("LDX", "imm", 2));
    (0xa4, ("LDY", "zpg", 2)); (0xa5, ("LDA", "zpg", 2)); (0xa6, ("LDX", "zpg", 2));
    (0xa8, ("TAY", "imp", 1)); (0xa9, ("LDA", "imm", 2)); (0xaa, ("TAX", "imp", 1));
    (0xac, ("LDY", "abs", 3)); (0xad, ("LDA", "abs", 3)); (0xae, ("LDX", "abs", 3));
    (0xb0, ("BCS", "rel", 2)); (0xb1, ("LDA", "iny", 2)); (0xb4, ("LDY", "zpx", 2));
    (0xb5, ("LDA", "zpx", 2)); (0xb6, ("LDX", "zpy", 2)); (0xb8, ("CLV", "imp", 1));
    (0xb9, ("LDA", "aby", 3)); (0xba, ("TSX", "imp", 1)); (0xbc, ("LDY", "abx", 3));
    (0xbd, ("LDA", "abx", 3)); (0xbe, ("LDX", "aby", 3));
    (0xc0, ("CPY", "imm", 2)); (0xc1, ("CMP", "inx", 2)); (0xc4, ("CPY", "zpg", 2));
    (0xc5, ("CMP", "zpg", 2)); (0xc6, ("DEC", "zpg", 2)); (0xc8, ("INY", "imp", 1));
    (0xc9, ("CMP", "imm", 2)); (0xca, ("DEX", "imp", 1)); (0xcc, ("CPY", "abs", 3));
    (0xcd, ("CMP", "abs", 3)); (0xce, ("DEC", "abs", 3));
    (0xd0, ("BNE", "rel", 2)); (0xd1, ("CMP", "iny", 2)); (0xd5, ("CMP", "zpx", 2));
    (0xd6, ("DEC", "zpx", 2)); (0xd8, ("CLD", "imp", 1)); (0xd9, ("CMP", "aby", 3));
    (0xdd, ("CMP", "abx", 3)); (0xde, ("DEC", "abx", 3));
    (0xe0, ("CPX", "imm", 2)); (0xe1, ("SBC", "inx", 2)); (0xe4, ("CPX", "zpg", 2));
    (0xe5, ("SBC", "zpg", 2)); (0xe6, ("INC", "zpg", 2)); (0xe8, ("INX", "imp", 1));
    (0xe9, ("SBC", "imm", 2)); (0xea, ("NOP", "imp", 1)); (0xec, ("CPX", "abs", 3));
    (0xed, ("SBC", "abs", 3)); (0xee, ("INC", "abs", 3));
    (0xf0, ("BEQ", "rel", 2)); (0xf1, ("SBC", "iny", 2)); (0xf5, ("SBC", "zpx", 2));
    (0xf6, ("INC", "zpx", 2)); (0xf8, ("SED", "imp", 1)); (0xf9, ("SBC", "aby", 3));
    (0xfd, ("SBC", "abx", 3)); (0xfe, ("INC", "abx", 3))
  ].

Definition OPCODES : gmap Z (string * string * Z) :=
  list_to_map OPCODES_items.

Arguments OPCODES : simpl never.

(** [fmt_operand(mode, val, addr)] *)
Definition fmt_operand (mode : string) (val addr : Z) : string :=
  if String.eqb mode "imp" || String.eqb mode "acc" then ""
  else if String.eqb mode "imm" then " #$" +:+ pct_02X val
  else if String.eqb mode "zpg" then " $" +:+ pct_02X val
  else if String.eqb mode "zpx" then " $" +:+ pct_02X val +:+ ",X"
  else if String.eqb mode "zpy" then " $" +:+ pct_02X val +:+ ",Y"
  else if String.eqb mode "abs" then " $" +:+ pct_04X val
  else if String.eqb mode "abx" then " $" +:+ pct_04X val +:+ ",X"
  else if String.eqb mode "aby" then " $" +:+ pct_04X val +:+ ",Y"
  else if String.eqb mode "ind" then " ($" +:+ pct_04X val +:+ ")"
  else if String.eqb mode "inx" then " ($" +:+ pct_02X val +:+ ",X)"
  else if String.eqb mode "iny" then " ($" +:+ pct_02X val +:+ "),Y"
  else if String.eqb mode "rel" then
    let signed := if val <? 128 then val else val - 256 in
    let target := addr + 2 + signed in
    " $" +:+ pct_04X target
  else " ???".

(** [data[i]] as an integer. *)
Definition byte_at (data : list byte) (i : Z) : res Z :=
  b ← getitem data i; mret (byte_val b).

(** The operand value read after the opcode: nothing for a one-byte
    instruction, one byte, or two bytes with the low byte first. *)
Definition operand_val (data : list byte) (i size : Z) : res Z :=
  if size =? 1 then mret 0
  else if size =? 2 then byte_at data (i + 1)
  else lo ← byte_at data (i + 1); hi ← byte_at data (i + 2);
       mret (Z.lor lo (Z.shiftl hi 8)).

(** ['$%04X: %-9s %s%s' % (addr, hexstr, name, operand)] *)
Definition instr_line (addr : Z) (hexstr name operand : string) : string :=
  "$" +:+ pct_04X addr +:+ ": " +:+ pct_ljust 9 hexstr +:+ " " +:+ name
      +:+ operand.

(** ['$%04X: %02X        .byte $%02X' % (addr, b, b)] *)
Definition byte_line (addr b : Z) : string :=
  "$" +:+ pct_04X addr +:+ ": " +:+ pct_02X b +:+ "        .byte $"
      +:+ pct_02X b.

(** One pass through the body of the [while] loop of [disasm] with the
    cursor at [i]: the line it prints and the amount added to [i]. *)
Definition step (data : list byte) (base i : Z) : res (string * Z) :=
  let addr := base + i in
  op ← byte_at data i;
  match OPCODES !! op with
  | Some (name, mode, size) =>
      let raw := slice data i (i + size) in
      let hexstr := join_space (map (fun b => pct_02X (byte_val b)) raw) in
      val ← operand_val data i size;
      let operand := fmt_operand mode val addr in
      mret (instr_line addr hexstr name operand, size)
  | None =>
      b ← byte_at data i;
      mret (byte_line addr b, 1)
  end.

(** How a call of [disasm] ends: the lines printed, in order; the value of
    the cursor [i] when the loop was left; and the exception that left it,
    if one did. *)
Record run : Type := Run {
  printed : list string;
  cursor : Z;
  raised : option exn
}.

(** The [while i < stop and i < len(data)] loop. [fuel] bounds the number
    of passes; [None] means the bound was too small. *)
Fixpoint disasm_loop (fuel : nat) (data : list byte) (base stop i : Z)
    (out : list string) : option run :=
  if (i <? stop) && (i <? len data) then
    match fuel with
    | O => None
    | S fuel =>
        match step data base i with
        | Ok (line, size) =>
            disasm_loop fuel data base stop (i + size) (out ++ [line])
        | Raise e => Some (Run out i (Some e))
        end
    end
  else Some (Run out i None).

(** [disasm(data, base, start=None, end=None)] *)
Definition disasm (data : list byte) (base : Z) (start end_ : option Z)
    : option run :=
  let start := default base start in
  let end_ := default (base + len data) end_ in
  let i := start - base in
  let stop := end_ - base in
  disasm_loop (Z.to_nat (Z.min stop (len data) - i)) data base stop i [].

(** [main()] from the point where the file and the arguments have been
    read: [rom] is the content of the file, [start_arg] and [end_arg] are
    the optional second and third arguments as the numbers [int(_, 16)]
    made of them. The PRG ROM is what follows the 16-byte header, 32 KiB at
    most. *)
Definition main (rom : list byte) (start_arg end_arg : option Z)
    : option run :=
  let prg := slice rom 16 (16 + 0x8000) in
  let start := default 0x8000 start_arg in
  let end_ := default (0x8000 + len prg) end_arg in
  disasm prg 0x8000 (Some start) (Some end_).

End Disasm.

(* ===================================================================== *)
(** ** scripts/compare_rom.py *)
(* ===================================================================== *)

Module CompareRom.

(** [for op in ops: oplen[op] = v]. Every index written below is less than
    256, so no assignment is out of range. *)
Definition set_each (ops : list Z) (v : Z) (oplen : list Z) : list Z :=
  foldl (fun l op => <[Z.to_nat op := v]> l) oplen ops.

(** The table [oplen], as the module builds it: 256 ones, then the seven
    [for] loops and the final assignment. *)
Definition oplen : list Z :=
  let oplen := replicate 256 1 in
  let oplen := set_each
    [0x09; 0x29; 0x49; 0x69; 0xa0; 0xa2; 0xa9; 0xc0; 0xc9; 0xe0; 0xe9]
    2 oplen in
  let oplen := set_each
    [0x05; 0x06; 0x24; 0x25; 0x26; 0x45; 0x46; 0x65; 0x66; 0x84; 0x85; 0x86; 0xa4; 0xa5; 0xa6; 0xc4; 0xc5; 0xc6; 0xe4; 0xe5; 0xe6]
    2 oplen in
  let oplen := set_each
    [0x0d; 0x0e; 0x20; 0x2c; 0x2d; 0x2e; 0x4c; 0x4d; 0x4e; 0x6d; 0x6e; 0x8c; 0x8d; 0x8e; 0xac; 0xad; 0xae; 0xcc; 0xcd; 0xce; 0xec; 0xed; 0xee]
    3 oplen in
  let oplen := set_each
    [0x10; 0x30; 0x50; 0x70; 0x90; 0xb0; 0xd0; 0xf0]
    2 oplen in
  let oplen := set_each
    [0x91; 0xb1; 0x11; 0x31; 0x51; 0x71; 0xd1; 0xf1]
    2 oplen in
  let oplen := set_each
    [0x1d; 0x19; 0x3d; 0x39; 0x5d; 0x59; 0x7d; 0x79; 0x9d; 0x99; 0xbd; 0xb9; 0xbc; 0xbe; 0xdd; 0xd9; 0xfd; 0xf9]
    3 oplen in
  let oplen := set_each
    [0x15; 0x16; 0x35; 0x36; 0x55; 0x56; 0x75; 0x76; 0x94; 0x95; 0x96; 0xb4; 0xb5; 0xb6; 0xd5; 0xd6; 0xf5; 0xf6]
    2 oplen in
  <[Z.to_nat 0x6c := 3]> oplen.

(** The entries of the [names] dict literal, in source order. *)
Definition names_items : list (Z * string) :=
  [
    (0x00, "BRK"); (0x08, "PHP"); (0x0a, "ASL"); (0x18, "CLC"); (0x28, "PLP"); (0x2a, "ROL"); (0x38, "SEC");
    (0x40, "RTI"); (0x48, "PHA"); (0x4a, "LSR"); (0x58, "CLI"); (0x60, "RTS"); (0x68, "PLA"); (0x6a, "ROR");
    (0x78, "SEI"); (0x88, "DEY"); (0x8a, "TXA"); (0x98, "TYA"); (0x9a, "TXS"); (0xa8, "TAY"); (0xaa, "TAX");
    (0xb8, "CLV"); (0xba, "TSX"); (0xc8, "INY"); (0xca, "DEX"); (0xd8, "CLD"); (0xe8, "INX"); (0xea, "NOP"); (0xf8, "SED");
    (0x20, "JSR"); (0x4c, "JMP"); (0x6c, "JMP_i");
    (0xa9, "LDA#"); (0xa2, "LDX#"); (0xa0, "LDY#"); (0xc9, "CMP#"); (0xc0, "CPY#"); (0xe0, "CPX#");
    (0x09, "ORA#"); (0x29, "AND#"); (0x49, "EOR#"); (0x69, "ADC#"); (0xe9, "SBC#");
    (0x85, "STA_z"); (0x86, "STX_z"); (0x84, "STY_z"); (0xa5, "LDA_z"); (0xa6, "LDX_z"); (0xa4, "LDY_z");
    (0x24, "BIT_z"); (0xc5, "CMP_z"); (0xc4, "CPY_z"); (0xe4, "CPX_z"); (0xc6, "DEC_z"); (0xe6, "INC_z");
    (0x05, "ORA_z"); (0x25, "AND_z"); (0x45, "EOR_z"); (0x65, "ADC_z"); (0xe5, "SBC_z");
    (0x06, "ASL_z"); (0x26, "ROL_z"); (0x46, "LSR_z"); (0x66, "ROR_z");
    (0x8d, "STA"); (0x8e, "STX"); (0x8c, "STY"); (0xad, "LDA"); (0xae, "LDX"); (0xac, "LDY");
    (0x2c, "BIT"); (0xcd, "CMP"); (0xcc, "CPY"); (0xec, "CPX"); (0xce, "DEC"); (0xee, "INC");
    (0x0d, "ORA"); (0x2d, "AND"); (0x4d, "EOR"); (0x6d, "ADC"); (0xed, "SBC");
    (0x0e, "ASL"); (0x2e, "ROL"); (0x4e, "LSR"); (0x6e, "ROR");
    (0x10, "BPL"); (0x30, "BMI"); (0x50, "BVC"); (0x70, "BVS"); (0x90, "BCC"); (0xb0, "BCS"); (0xd0, "BNE"); (0xf0, "BEQ");
    (0x91, "STA(y)"); (0xb1, "LDA(y)"); (0x11, "ORA(y)"); (0x31, "AND(y)"); (0x51, "EOR(y)");
    (0x71, "ADC(y)"); (0xd1, "CMP(y)"); (0xf1, "SBC(y)");
    (0x95, "STA_zx"); (0xb5, "LDA_zx"); (0x15, "ORA_zx"); (0x35, "AND_zx"); (0x55, "EOR_zx");
    (0x75, "ADC_zx"); (0xd5, "CMP_zx"); (0xf5, "SBC_zx"); (0x94, "STY_zx"); (0xb4, "LDY_zx");
    (0x16, "ASL_zx"); (0x36, "ROL_zx"); (0x56, "LSR_zx"); (0x76, "ROR_zx"); (0xd6, "DEC_zx"); (0xf6, "INC_zx");
    (0x96, "STX_zy"); (0xb6, "LDX_zy");
    (0x9d, "STA_x"); (0xbd, "LDA_x"); (0x1d, "ORA_x"); (0x3d, "AND_x"); (0x5d, "EOR_x");
    (0x7d, "ADC_x"); (0xdd, "CMP_x"); (0xfd, "SBC_x"); (0xbc, "LDY_x");
    (0x99, "STA_y"); (0xb9, "LDA_y"); (0x19, "ORA_y"); (0x39, "AND_y"); (0x59, "EOR_y");
    (0x79, "ADC_y"); (0xd9, "CMP_y"); (0xf9, "SBC_y"); (0xbe, "LDX_y")
  ].

Definition names : gmap Z string := list_to_map names_items.

Arguments oplen : simpl never.
Arguments names : simpl never.

(** What one pass through the body of the [while] loop of [disasm] does
    with the cursor at [i]: leave the loop ([Break]), or append one
    (address, text) pair to [lines] and add [length] to [i]. *)
Inductive pass : Type :=
| Break
| Append (line : Z * string) (length : Z).

Definition step (rom : list byte) (end_ i : Z) : res pass :=
  b ← getitem rom i;
  let op := byte_val b in
  let n := default ("?" +:+ pct_02X op) (names !! op) in
  length ← getitem oplen op;
  let nes := 0x8000 + (i - 16) in
  if i + length >? end_ then mret Break
  else if length =? 3 then
    b1 ← getitem rom (i + 1); b2 ← getitem rom (i + 2);
    let val := Z.lor (byte_val b1) (Z.shiftl (byte_val b2) 8) in
    mret (Append (nes, n +:+ " $" +:+ pct_04X val) length)
  else if length =? 2 then
    b1 ← getitem rom (i + 1);
    mret (Append (nes, n +:+ " $" +:+ pct_02X (byte_val b1)) length)
  else mret (Append (nes, n) length).

(** The [while i < end] loop. [fuel] bounds the number of passes; [None]
    means the bound was too small. An exception discards [lines]. *)
Fixpoint disasm_loop (fuel : nat) (rom : list byte) (end_ i : Z)
    (lines : list (Z * string)) : option (res (list (Z * string))) :=
  if i <? end_ then
    match fuel with
    | O => None
    | S fuel =>
        match step rom end_ i with
        | Ok Break => Some (Ok lines)
        | Ok (Append line length) =>
            disasm_loop fuel rom end_ (i + length) (lines ++ [line])
        | Raise e => Some (Raise e)
        end
    end
  else Some (Ok lines).

(** [disasm(rom, start_file, count)] *)
Definition disasm (rom : list byte) (start_file count : Z)
    : option (res (list (Z * string))) :=
  let i := start_file in
  let end_ := Z.min (start_file + count) (len rom) in
  disasm_loop (Z.to_nat (end_ - i)) rom end_ i [].

(** The mnemonics [normalize] looks for. *)
Definition absolute_names : list string :=
  ["JSR"; "JMP"; "STA"; "STX"; "STY"; "LDA"; "LDX"; "LDY";
   "INC"; "DEC"; "CMP"; "BIT"; "ORA"; "AND"; "EOR"; "ADC"; "SBC";
   "ASL"; "ROL"; "LSR"; "ROR"; "JMP_i"; "STA_x"; "LDA_x"; "STA_y"; "LDA_y"].

(** [normalize(inst_text)]. The pattern [[p0; p1]] is [len(parts) == 2]
    with [parts[0]] and [parts[1]]. *)
Definition normalize (inst_text : string) : string :=
  let parts := split inst_text in
  match parts with
  | [p0; p1] =>
      if startswith_dollar p1 && (String.length p1 =? 5)%nat then
        if str_in p0 absolute_names then p0 +:+ " $????"
        else inst_text
      else inst_text
  | _ => inst_text
  end.

(** *** The computations of [main] *)

(** A tuple [(i, cc65[i], ours[i])] of [diffs]; [d[0]] is the offset. *)
Definition diff : Type := Z * Z * Z.

Definition offset (d : diff) : Z := d.1.1.

(** The list comprehension of [diffs] over the offsets [is_], one element
    after the other. *)
Fixpoint diffs_over (cc65 ours : list byte) (is_ : list Z)
    : res (list diff) :=
  match is_ with
  | [] => mret []
  | i :: is_ =>
      a ← getitem cc65 i; b ← getitem ours i;
      rest ← diffs_over cc65 ours is_;
      mret (if negb (byte_val a =? byte_val b)
            then (i, byte_val a, byte_val b) :: rest
            else rest)
  end.

(** [diffs = [(i, cc65[i], ours[i])
              for i in range(min(len(cc65), len(ours)))
              if cc65[i] != ours[i]]] *)
Definition byte_diffs (cc65 ours : list byte) : res (list diff) :=
  diffs_over cc65 ours (seqZ 0 (Z.min (len cc65) (len ours))).

(** [hdr], [prg] and [chrr]: the differences in the 16-byte header, in the
    32 KiB after it, and past them. *)
Definition hdr (diffs : list diff) : list diff :=
  List.filter (fun d => offset d <? 16) diffs.

Definition prg (diffs : list diff) : list diff :=
  List.filter (fun d => (16 <=? offset d) && (offset d <? 16 + 32768)) diffs.

Definition chrr (diffs : list diff) : list diff :=
  List.filter (fun d => offset d >=? 16 + 32768) diffs.

(** The [for d in diffs[1:]] loop that groups the differences, followed by
    the final [groups.append(current)]. *)
Fixpoint group_loop (groups : list (list diff)) (current : list diff)
    (ds : list diff) : res (list (list diff)) :=
  match ds with
  | [] => mret (groups ++ [current])
  | d :: ds =>
      last ← getitem current (-1);
      if offset d - offset last <=? 4
      then group_loop groups (current ++ [d]) ds
      else group_loop (groups ++ [current]) [d] ds
  end.

(** The body of [if diffs:] up to the final append: [current] starts as
    [[diffs[0]]] and the loop runs over [diffs[1:]]. *)
Definition group_diffs (diffs : list diff) : res (list (list diff)) :=
  first ← getitem diffs 0;
  group_loop [] [first] (slice diffs 1 (len diffs)).

(** The line printed for a group [g]: [s], [nes_s], [len(g)] and the byte
    span [e - s + 1]. *)
Definition group_summary (g : list diff) : res (Z * Z * Z * Z) :=
  first ← getitem g 0; last ← getitem g (-1);
  let s := offset first in
  let e := offset last in
  let nes_s := 0x8000 + (s - 16) in
  mret (s, nes_s, len g, e - s + 1).

(** [max(groups, key=lambda g: len(g))] over a first group [best] and the
    groups after it: the first of the longest groups. *)
Fixpoint max_by_len (best : list diff) (groups : list (list diff))
    : list diff :=
  match groups with
  | [] => best
  | g :: groups =>
      if len best <? len g then max_by_len g groups
      else max_by_len best groups
  end.

(** [largest]; [None] stands for the [ValueError] of [max] on an empty
    sequence. *)
Definition largest (groups : list (list diff)) : option (list diff) :=
  match groups with
  | [] => None
  | g :: groups => Some (max_by_len g groups)
  end.

(** The pass over the two disassemblies in step: for each pair of lines
    whether the normalized texts are equal, and the count of those that are
    not. [ci] and [oi] are equal throughout, so the loop walks the two lists
    together and stops at the end of the shorter. *)
Fixpoint compare_lines (cc65_main ours_main : list (Z * string))
    : list (Z * string * (Z * string) * bool) * Z :=
  match cc65_main, ours_main with
  | c :: cs, o :: os =>
      let cn := normalize c.2 in
      let on := normalize o.2 in
      let same := String.eqb cn on in
      let '(rows, mismatches) := compare_lines cs os in
      ((c, o, same) :: rows, if same then mismatches else mismatches + 1)
  | _, _ => ([], 0)
  end.

(** The disassembly stage of [main], under [if prg:]: the range starts at
    the first offset of the largest group and spans it with 50 bytes of
    context; both files are disassembled over it. [None] is a step that did
    not finish (the fuel of a loop, or [max] without a group). *)
Definition main_disassemblies (cc65 ours : list byte)
    (groups : list (list diff))
    : option (res (list (Z * string) * list (Z * string))) :=
  match largest groups with
  | None => None
  | Some largest =>
      match getitem largest 0, getitem largest (-1) with
      | Ok first, Ok last =>
          let start_file := offset first in
          let span := offset last - start_file + 50 in
          match disasm cc65 start_file span with
          | Some (Ok cc65_main) =>
              match disasm ours start_file span with
              | Some (Ok ours_main) => Some (Ok (cc65_main, ours_main))
              | Some (Raise e) => Some (Raise e)
              | None => None
              end
          | Some (Raise e) => Some (Raise e)
          | None => None
          end
      | Raise e, _ => Some (Raise e)
      | _, Raise e => Some (Raise e)
      end
  end.

(** [for g in groups:] the line printed for each group. *)
Fixpoint group_summaries (groups : list (list diff))
    : res (list (Z * Z * Z * Z)) :=
  match groups with
  | [] => mret []
  | g :: groups =>
      line ← group_summary g; rest ← group_summaries groups;
      mret (line :: rest)
  end.

(** The group lines [main] prints for two files: none without a
    difference, otherwise one for each group. *)
Definition main_group_lines (cc65 ours : list byte)
    : res (list (Z * Z * Z * Z)) :=
  diffs ← byte_diffs cc65 ours;
  match diffs with
  | [] => mret []
  | _ :: _ => groups ← group_diffs diffs; group_summaries groups
  end.

(** [needle = bytes([0x4C, 0x4F, 0x4C, 0x21])], the text "LOL!". *)
Definition needle : list byte := [x4c; x4f; x4c; x21].

(** The [while True] loop that counts the copies of [needle]: each search
    starts 30 bytes after the copy found before. [fuel] bounds the number
    of passes; [None] means the bound was too small. *)
Fixpoint count_loop (fuel : nat) (rom : list byte) (idx count : Z)
    : option Z :=
  let idx := find rom needle idx in
  if idx <? 0 then Some count
  else match fuel with
       | O => None
       | S fuel => count_loop fuel rom (idx + 30) (count + 1)
       end.

(** [idx, count = 16, 0] and the loop. *)
Definition count_copies (rom : list byte) : option Z :=
  count_loop (Z.to_nat (len rom)) rom 16 0.

(** What is printed for a file under [if count > 0:]: the count and the
    address of the first copy. *)
Definition string_copies (rom : list byte) : option (option (Z * Z)) :=
  match count_copies rom with
  | None => None
  | Some count =>
      if count >? 0 then
        let first := find rom needle 16 in
        let nes_addr := 0x8000 + (first - 16) in
        Some (Some (count, nes_addr))
      else Some None
  end.

(** What [main] computes from the two files, in the order it does: the
    differences, their groups under [if diffs:], and under [if prg:] the
    two disassemblies and the mismatch count, [None] when there is no PRG
    difference. (The sizes, the counts, the search for the text "LOL!" and
    the table are printed on the way and feed nothing back.) *)
Definition main_mismatches (cc65 ours : list byte)
    : option (res (option Z)) :=
  match byte_diffs cc65 ours with
  | Raise e => Some (Raise e)
  | Ok diffs =>
      match diffs with
      | [] => Some (Ok None)
      | _ :: _ =>
          match group_diffs diffs with
          | Raise e => Some (Raise e)
          | Ok groups =>
              match prg diffs with
              | [] => Some (Ok None)
              | _ :: _ =>
                  match main_disassemblies cc65 ours groups with
                  | Some (Ok (cc65_main, ours_main)) =>
                      Some (Ok (Some (compare_lines cc65_main ours_main).2))
                  | Some (Raise e) => Some (Raise e)
                  | None => None
                  end
              end
          end
      end
  end.

End CompareRom.

(* ===================================================================== *)
(** ** Notions used in the statements *)
(* ===================================================================== *)

(** An [OPCODES] item is well formed: a byte value as key, a size of 1, 2
    or 3. *)
Definition size_ok (item : Z * (string * string * Z)) : bool :=
  let '(op, (_, _, size)) := item in
  (0 <=? op) && (op <? 256) && (1 <=? size) && (size <=? 3).

(** The two's-complement reading of an operand byte as a displacement. *)
Definition displacement (val : Z) : Z :=
  if val <? 128 then val else val - 256.

(** The number of bytes [Disasm.disasm] takes for the instruction at offset
    [i] of [data]: the table size of the opcode there, 1 for a byte without
    an entry. *)
Definition size_at (data : list byte) (i : Z) : Z :=
  match getitem data i with
  | Ok b =>
      match Disasm.OPCODES !! byte_val b with
      | Some (_, _, size) => size
      | None => 1
      end
  | Raise _ => 1
  end.

(** The number of bytes [CompareRom.disasm] takes for the instruction at
    offset [i] of [rom]: [oplen] of the byte there. *)
Definition length_at (rom : list byte) (i : Z) : Z :=
  match getitem rom i with
  | Ok b =>
      match getitem CompareRom.oplen (byte_val b) with
      | Ok n => n
      | Raise _ => 1
      end
  | Raise _ => 1
  end.

(** The running cursor: where the cursor stands after [k] instructions,
    starting at [i], when an instruction at [c] takes [sz c] bytes. *)
Fixpoint cursor_after (sz : Z -> Z) (k : nat) (i : Z) : Z :=
  match k with
  | O => i
  | S k => cursor_after sz k (i + sz i)
  end.

(** A printed line starts with the address [a] as [disasm.py] prints it. *)
Definition at_address (a : Z) (line : string) : Prop :=
  exists rest, line = "$" +:+ pct_04X a +:+ ": " +:+ rest.

(** An [OPCODES] item in relative mode has size 2. *)
Definition rel_size_ok (item : Z * (string * string * Z)) : bool :=
  let '(_, (_, mode, size)) := item in
  negb (String.eqb mode "rel") || (size =? 2).

(** The mnemonic of an [OPCODES] item is not the raw-data tag. *)
Definition name_ok (item : Z * (string * string * Z)) : bool :=
  let '(_, (name, _, _)) := item in
  negb (String.eqb name ".byte").

(** The ranges the specification calls invalid: a start at or past the end
    of the buffer, or an end before the start. *)
Definition invalid_range (data : list byte) (base start end_ : Z) : Prop :=
  len data <= start - base \/ end_ < start.

(** The 256 byte values, in order. *)
Definition all_bytes : list byte :=
  omap (fun n => Byte.of_N (N.of_nat n)) (seq 0 256).

(** The two operand bytes of a 3-byte instruction, put together the way
    [disasm] does, give low + 256 * high. *)
Definition little_endian_ok (lo hi : byte) : bool :=
  Z.lor (byte_val lo) (Z.shiftl (byte_val hi) 8)
  =? byte_val lo + 256 * byte_val hi.

(** No character of [s] is white space. *)
Fixpoint nonblank (s : string) : bool :=
  match s with
  | "" => true
  | String c s' => negb (isspace c) && nonblank s'
  end.

(** A word: not empty and without white space. *)
Definition is_word (s : string) : bool :=
  negb (String.eqb s "") && nonblank s.

(** The name [CompareRom.disasm] gives to the opcode byte [b]:
    [names.get(op, '?%02X' % op)]. *)
Definition mnemonic (b : byte) : string :=
  default ("?" +:+ pct_02X (byte_val b)) (CompareRom.names !! byte_val b).

(** ['%04X'] of a 16-bit value is four characters, none of them white
    space; ['%02X'] of a byte value likewise with two. *)
Definition hex4_ok (v : Z) : bool :=
  (String.length (pct_04X v) =? 4)%nat && nonblank (pct_04X v).

Definition hex2_ok (b : byte) : bool :=
  (String.length (pct_02X (byte_val b)) =? 2)%nat
  && nonblank (pct_02X (byte_val b)).

(** The texts [CompareRom.disasm] can put in its result. *)
Definition rendered (text : string) : Prop :=
  exists (rom : list byte) (start_file count nes : Z)
         (lines : list (Z * string)),
    CompareRom.disasm rom start_file count = Some (Ok lines)
    /\ In (nes, text) lines.

(** The three shapes of a text of [CompareRom.disasm]: a name alone, a
    name with a one-byte operand, a name with a two-byte operand. *)
Definition shape (text : string) : Prop :=
  exists b : byte,
    text = mnemonic b
    \/ (exists b1 : byte,
          text = mnemonic b +:+ " $" +:+ pct_02X (byte_val b1))
    \/ (exists b1 b2 : byte,
          text = mnemonic b +:+ " $"
                 +:+ pct_04X (Z.lor (byte_val b1) (Z.shiftl (byte_val b2) 8))).

(** [oplen] gives the opcode of an [OPCODES] item the size of the item. *)
Definition lengths_agree (item : Z * (string * string * Z)) : bool :=
  let '(op, (_, _, size)) := item in
  match getitem CompareRom.oplen op with
  | Ok n => n =? size
  | Raise _ => false
  end.

(** The opcodes of [OPCODES] on which the two tables differ. *)
Definition drifted : list Z :=
  map fst (List.filter (fun item => negb (lengths_agree item))
             Disasm.OPCODES_items).

(** An [OPCODES] item whose opcode has a name in [names] has the length
    [oplen] gives it. *)
Definition named_agree (item : Z * (string * string * Z)) : bool :=
  match CompareRom.names !! item.1 with
  | Some _ => lengths_agree item
  | None => true
  end.

(** The size each addressing mode of [fmt_operand] goes with: no operand
    byte for implied and accumulator, two for the absolute and indirect
    modes, one for the others. *)
Definition mode_size (mode : string) : option Z :=
  if String.eqb mode "imp" || String.eqb mode "acc" then Some 1
  else if String.eqb mode "imm" || String.eqb mode "zpg"
          || String.eqb mode "zpx" || String.eqb mode "zpy"
          || String.eqb mode "inx" || String.eqb mode "iny"
          || String.eqb mode "rel" then Some 2
  else if String.eqb mode "abs" || String.eqb mode "abx"
          || String.eqb mode "aby" || String.eqb mode "ind" then Some 3
  else None.

Definition mode_ok (item : Z * (string * string * Z)) : bool :=
  let '(_, (_, mode, size)) := item in
  match mode_size mode with
  | Some n => n =? size
  | None => false
  end.

(** The value of the operand bytes that follow an opcode: none, one byte,
    or two bytes with the low byte first. *)
Definition operand_of (operands : list byte) : Z :=
  match operands with
  | [b] => byte_val b
  | [lo; hi] => byte_val lo + 256 * byte_val hi
  | _ => 0
  end.

(** The length the two tables give a byte value when they agree: the size
    of its [OPCODES] entry, 1 without an entry. *)
Definition table_size (op : Z) : Z :=
  match Disasm.OPCODES !! op with
  | Some (_, _, size) => size
  | None => 1
  end.

Definition agree_or_drifted (b : byte) : bool :=
  match getitem CompareRom.oplen (byte_val b) with
  | Ok n => (n =? table_size (byte_val b))
            || existsb (Z.eqb (byte_val b)) drifted
  | Raise _ => false
  end.

(** The ending [compare_rom.py] puts after a mnemonic for an addressing
    mode of [disasm.py]. *)
Definition mode_suffix (mode : string) : string :=
  if String.eqb mode "imm" then "#"
  else if String.eqb mode "zpg" then "_z"
  else if String.eqb mode "zpx" then "_zx"
  else if String.eqb mode "zpy" then "_zy"
  else if String.eqb mode "abx" then "_x"
  else if String.eqb mode "aby" then "_y"
  else if String.eqb mode "ind" then "_i"
  else if String.eqb mode "iny" then "(y)"
  else "".

(** An [OPCODES] item is either named in [names], by its mnemonic with the
    ending of its mode, or one of the opcodes on which the tables differ. *)
Definition name_agrees (item : Z * (string * string * Z)) : bool :=
  let '(op, (name, mode, _)) := item in
  match CompareRom.names !! op with
  | Some n => String.eqb n (name +:+ mode_suffix mode)
              && negb (existsb (Z.eqb op) drifted)
  | None => existsb (Z.eqb op) drifted
  end.

(** A [names] item has an entry in [OPCODES]. *)
Definition named_in_opcodes (item : Z * string) : bool :=
  match Disasm.OPCODES !! item.1 with
  | Some _ => true
  | None => false
  end.

(** ['%04X'] of a 16-bit value is not the wildcard. *)
Definition hex4_plain (v : Z) : bool :=
  negb (String.eqb (pct_04X v) "????").

(** [d] records a real difference of the two files: its offset is inside
    both, its two bytes are the bytes there, and they differ. *)
Definition is_diff (cc65 ours : list byte) (d : CompareRom.diff) : Prop :=
  exists a b : byte,
    0 <= CompareRom.offset d < Z.min (len cc65) (len ours)
    /\ cc65 !! Z.to_nat (CompareRom.offset d) = Some a
    /\ ours !! Z.to_nat (CompareRom.offset d) = Some b
    /\ d = (CompareRom.offset d, byte_val a, byte_val b)
    /\ a <> b.

(** Within a group, each difference is at most 4 bytes after the one
    before it. *)
Fixpoint close (g : list CompareRom.diff) : Prop :=
  match g with
  | d :: ((d' :: _) as rest) =>
      CompareRom.offset d' - CompareRom.offset d <= 4 /\ close rest
  | _ => True
  end.

(** From one group to the next, the first difference of the next is more
    than 4 bytes after the last difference of the one before. *)
Fixpoint apart (groups : list (list CompareRom.diff)) : Prop :=
  match groups with
  | g :: ((g' :: _) as rest) =>
      (forall l f : CompareRom.diff,
         last g = Some l -> head g' = Some f ->
         4 < CompareRom.offset f - CompareRom.offset l)
      /\ apart rest
  | _ => True
  end.

(** A group line is sound: the offset is not negative, the address is its
    translation, and the byte span lies between the number of differences
    and four times that number minus three. *)
Definition summary_ok (line : Z * Z * Z * Z) : Prop :=
  let '(s, nes_s, n, span) := line in
  0 <= s /\ nes_s = 0x8000 + (s - 16) /\ 1 <= n <= span /\ span <= 4 * n - 3.

(** Reading the operand back from its text. [hex_value] reads upper-case
    hexadecimal digits; [read_operand] takes the digits where
    [fmt_operand] puts them for the mode and, in relative mode, turns the
    target back into the operand byte. *)
Definition hex_digit (c : ascii) : option Z :=
  let n := Z.of_N (N_of_ascii c) in
  if (48 <=? n) && (n <=? 57) then Some (n - 48)
  else if (65 <=? n) && (n <=? 70) then Some (n - 55)
  else None.

Fixpoint hex_value_from (acc : Z) (s : string) : option Z :=
  match s with
  | "" => Some acc
  | String c s =>
      match hex_digit c with
      | Some d => hex_value_from (16 * acc + d) s
      | None => None
      end
  end.

Definition hex_value (s : string) : option Z :=
  match s with
  | "" => None
  | _ => hex_value_from 0 s
  end.

Definition read_operand (mode : string) (addr : Z) (text : string)
    : option Z :=
  if String.eqb mode "imm" || String.eqb mode "inx" || String.eqb mode "iny"
  then hex_value (substring 3 2 text)
  else if String.eqb mode "zpg" || String.eqb mode "zpx"
          || String.eqb mode "zpy"
  then hex_value (substring 2 2 text)
  else if String.eqb mode "abs" || String.eqb mode "abx"
          || String.eqb mode "aby"
  then hex_value (substring 2 4 text)
  else if String.eqb mode "ind" then hex_value (substring 3 4 text)
  else if String.eqb mode "rel" then
    match hex_value (substring 2 4 text) with
    | Some target => Some ((target - addr - 2) mod 256)
    | None => None
    end
  else None.

Definition hex2_reads (b : byte) : bool :=
  match pct_02X (byte_val b) with
  | String c1 (String c2 "") =>
      match hex_value (String c1 (String c2 "")) with
      | Some v => v =? byte_val b
      | None => false
      end
  | _ => false
  end.

Definition hex4_reads (v : Z) : bool :=
  match pct_04X v with
  | String c1 (String c2 (String c3 (String c4 ""))) =>
      match hex_value (String c1 (String c2 (String c3 (String c4 "")))) with
      | Some w => w =? v
      | None => false
      end
  | _ => false
  end.



(* ===================================================================== *)
(** ** Facts about the Python operations and the tables *)
(* ===================================================================== *)

Section Runtime.

Lemma bind_Ok {A B : Type} (m : res A) (k : A -> res B) (b : B) :
  m ≫= k = Ok b -> exists a, m = Ok a /\ k a = Ok b.
Proof. destruct m as [a|e]; simpl; [eauto | discriminate]. Qed.

Lemma bind_Ok_l {A B : Type} (a : A) (k : A -> res B) : Ok a ≫= k = k a.
Proof. reflexivity. Qed.

Lemma byte_val_range (b : byte) : 0 <= byte_val b < 256.
Proof. destruct b; vm_compute; split; congruence. Qed.

Lemma len_nonneg {A : Type} (l : list A) : 0 <= len l.
Proof. unfold len. lia. Qed.

Lemma len_app {A : Type} (l k : list A) : len (l ++ k) = len l + len k.
Proof. unfold len. rewrite length_app. lia. Qed.

(** Within range, a non-negative subscript is the plain list lookup. *)
Lemma getitem_lookup {A : Type} (l : list A) (i : Z) (x : A) :
  0 <= i -> l !! Z.to_nat i = Some x -> getitem l i = Ok x.
Proof.
  intros Hi Hx. unfold getitem.
  destruct (Z.leb_spec 0 i); [|lia]. now rewrite Hx.
Qed.

(** At or past the end, a subscript raises. *)
Lemma getitem_past_end {A : Type} (l : list A) (i : Z) :
  len l <= i -> getitem l i = Raise IndexError.
Proof.
  intros Hi. unfold getitem. pose proof (len_nonneg l).
  destruct (Z.leb_spec 0 i); [|lia].
  rewrite lookup_ge_None_2; [reflexivity|]. unfold len in Hi. lia.
Qed.

(** A subscript that succeeds is within [-len, len). *)
Lemma getitem_Ok_range {A : Type} (l : list A) (i : Z) (x : A) :
  getitem l i = Ok x -> - len l <= i < len l.
Proof.
  unfold getitem. intros H. pose proof (len_nonneg l).
  destruct (Z.leb_spec 0 i).
  - destruct (l !! Z.to_nat i) eqn:E; [|discriminate].
    apply lookup_lt_Some in E. unfold len. lia.
  - destruct (Z.leb_spec (- len l) i); [lia | discriminate].
Qed.

(** A subscript within [-len, len) succeeds. *)
Lemma getitem_in_range {A : Type} (l : list A) (i : Z) :
  - len l <= i < len l -> exists x, getitem l i = Ok x.
Proof.
  intros Hi. unfold getitem.
  destruct (Z.leb_spec 0 i).
  - destruct (lookup_lt_is_Some_2 l (Z.to_nat i)) as [x Hx].
    { unfold len in Hi. lia. }
    rewrite Hx. eauto.
  - destruct (Z.leb_spec (- len l) i); [|lia].
    destruct (lookup_lt_is_Some_2 l (Z.to_nat (len l + i))) as [x Hx].
    { unfold len in *. lia. }
    rewrite Hx. eauto.
Qed.

End Runtime.

Section Bytes.

Lemma all_bytes_complete (b : byte) : In b all_bytes.
Proof.
  assert (H : existsb (Byte.eqb b) all_bytes = true)
    by (destruct b; vm_compute; reflexivity).
  apply existsb_exists in H as (c & Hc & Heq).
  apply Byte.byte_dec_bl in Heq. now subst.
Qed.

Lemma for_all_bytes (P : byte -> bool) :
  forallb P all_bytes = true -> forall b, P b = true.
Proof.
  intros H b. rewrite forallb_forall in H. apply H, all_bytes_complete.
Qed.

(** Every integer from 0 to 255 is the value of a byte. *)
Lemma byte_of_val (z : Z) : 0 <= z < 256 -> exists b, byte_val b = z.
Proof.
  intros Hz. destruct (Byte.of_N (Z.to_N z)) as [b|] eqn:E.
  - exists b. unfold byte_val. apply Byte.to_of_N in E. rewrite E. lia.
  - apply Byte.of_N_None_iff in E. lia.
Qed.

Lemma little_endian (lo hi : byte) :
  Z.lor (byte_val lo) (Z.shiftl (byte_val hi) 8)
  = byte_val lo + 256 * byte_val hi.
Proof.
  assert (H : forallb (fun l => forallb (little_endian_ok l) all_bytes)
                all_bytes = true) by (vm_compute; reflexivity).
  pose proof (for_all_bytes _ (for_all_bytes _ H lo) hi) as Hb.
  unfold little_endian_ok in Hb. lia.
Qed.

End Bytes.

Section Tables.

Import Disasm.

Lemma OPCODES_items_ok : forallb size_ok OPCODES_items = true.
Proof. vm_compute. reflexivity. Qed.

Lemma OPCODES_lookup_item (op : Z) (e : string * string * Z) :
  OPCODES !! op = Some e -> In (op, e) OPCODES_items.
Proof.
  intros H. apply list_elem_of_In.
  now apply (elem_of_list_to_map_2 (M := gmap Z)).
Qed.

(** No opcode occurs twice in the dict literal, so the dict holds exactly
    the items written. *)
Lemma OPCODES_keys_nodup : NoDup (OPCODES_items.*1).
Proof. compute_done. Qed.

Lemma OPCODES_lookup_iff (op : Z) (e : string * string * Z) :
  OPCODES !! op = Some e <-> In (op, e) OPCODES_items.
Proof.
  rewrite <- list_elem_of_In. symmetry.
  apply (elem_of_list_to_map (M := gmap Z)), OPCODES_keys_nodup.
Qed.

(** Every entry of [OPCODES] has size 1, 2 or 3. *)
Lemma OPCODES_size (op : Z) (name mode : string) (size : Z) :
  OPCODES !! op = Some (name, mode, size) -> 1 <= size <= 3.
Proof.
  intros H. apply OPCODES_lookup_item in H.
  pose proof OPCODES_items_ok as Hall.
  rewrite forallb_forall in Hall. apply Hall in H.
  unfold size_ok in H. lia.
Qed.

End Tables.

Section DisasmLoop.

Import Disasm.

Lemma byte_at_Ok (data : list byte) (i v : Z) :
  byte_at data i = Ok v <-> exists b, getitem data i = Ok b /\ v = byte_val b.
Proof.
  unfold byte_at. split.
  - intros H. apply bind_Ok in H as (b & Hb & Hv).
    change (Ok (byte_val b) = Ok v) in Hv.
    exists b. split; [assumption | congruence].
  - intros (b & Hb & ->). now rewrite Hb.
Qed.

(** The amount a pass adds to the cursor is the size of the table entry
    of the opcode under the cursor, or 1 when there is none. *)
Lemma step_size (data : list byte) (base i : Z) (line : string) (size : Z) :
  step data base i = Ok (line, size) ->
  exists b, getitem data i = Ok b /\
    match OPCODES !! byte_val b with
    | Some (_, _, sz) => size = sz
    | None => size = 1
    end.
Proof.
  unfold step. intros H.
  apply bind_Ok in H as (op & Hop & H).
  apply byte_at_Ok in Hop as (b & Hb & ->).
  exists b. split; [assumption|].
  destruct (OPCODES !! byte_val b) as [[[name mode] sz]|].
  - apply bind_Ok in H as (val & _ & H). unfold mret, res_ret in H. congruence.
  - apply bind_Ok in H as (v & _ & H). unfold mret, res_ret in H. congruence.
Qed.

Lemma step_advances (data : list byte) (base i : Z) (line : string) (size : Z) :
  step data base i = Ok (line, size) -> 1 <= size <= 3.
Proof.
  intros H. apply step_size in H as (b & _ & H).
  destruct (OPCODES !! byte_val b) as [[[name mode] sz]|] eqn:E.
  - subst. eapply OPCODES_size; eassumption.
  - lia.
Qed.

(** Enough fuel: the distance from the cursor to the nearer of the two
    bounds. *)
Lemma disasm_loop_enough (fuel : nat) :
  forall (data : list byte) (base stop i : Z) (out : list string),
  Z.min stop (len data) - i <= Z.of_nat fuel ->
  exists r, disasm_loop fuel data base stop i out = Some r.
Proof.
  induction fuel as [|fuel IH]; intros data base stop i out Hfuel; simpl.
  - destruct (Z.ltb_spec i stop), (Z.ltb_spec i (len data)); simpl; eauto; lia.
  - destruct (Z.ltb_spec i stop), (Z.ltb_spec i (len data)); simpl; eauto.
    destruct (step data base i) as [[line size]|e] eqn:Hstep; eauto.
    apply step_advances in Hstep. apply IH. lia.
Qed.

(** More fuel does not change the outcome. *)
Lemma disasm_loop_more (fuel : nat) :
  forall (fuel' : nat) (data : list byte) (base stop i : Z)
         (out : list string) (r : run),
  (fuel <= fuel')%nat ->
  disasm_loop fuel data base stop i out = Some r ->
  disasm_loop fuel' data base stop i out = Some r.
Proof.
  induction fuel as [|fuel IH]; intros fuel' data base stop i out r Hle; simpl.
  - destruct ((i <? stop) && (i <? len data)) eqn:C; [discriminate|].
    intros H. destruct fuel'; simpl; now rewrite C.
  - destruct ((i <? stop) && (i <? len data)) eqn:C.
    + destruct fuel' as [|fuel']; [lia|]. simpl. rewrite C.
      destruct (step data base i) as [[line size]|e]; [|trivial].
      apply IH. lia.
    + intros H. destruct fuel'; simpl; now rewrite C.
Qed.

End DisasmLoop.

Section RunningCursor.

Variable sz : Z -> Z.
Hypothesis sz_pos : forall c, 1 <= sz c.

Lemma cursor_after_ge (k : nat) : forall i, i <= cursor_after sz k i.
Proof.
  induction k as [|k IH]; intros i; simpl; [lia|].
  specialize (IH (i + sz i)). specialize (sz_pos i). lia.
Qed.

Lemma cursor_after_lt (j : nat) :
  forall (k : nat) (i : Z), (j < k)%nat ->
  cursor_after sz j i < cursor_after sz k i.
Proof.
  induction j as [|j IH]; intros [|k] i Hjk; try lia; simpl.
  - pose proof (cursor_after_ge k (i + sz i)). specialize (sz_pos i). lia.
  - apply IH. lia.
Qed.

End RunningCursor.

Section DisasmAddresses.

Import Disasm.

Lemma size_at_pos (data : list byte) (c : Z) : 1 <= size_at data c.
Proof.
  unfold size_at. destruct (getitem data c) as [b|]; [|lia].
  destruct (OPCODES !! byte_val b) as [[[name mode] size]|] eqn:E; [|lia].
  apply OPCODES_size in E. lia.
Qed.

Lemma step_size_at (data : list byte) (base i : Z) (line : string) (size : Z) :
  step data base i = Ok (line, size) -> size = size_at data i.
Proof.
  intros H. apply step_size in H as (b & Hb & H). unfold size_at.
  rewrite Hb. destruct (OPCODES !! byte_val b) as [[[name mode] sz]|]; assumption.
Qed.

Lemma step_at_address (data : list byte) (base i : Z) (line : string) (size : Z) :
  step data base i = Ok (line, size) -> at_address (base + i) line.
Proof.
  unfold step. intros H.
  apply bind_Ok in H as (op & _ & H).
  destruct (OPCODES !! op) as [[[name mode] sz]|].
  - apply bind_Ok in H as (val & _ & H). unfold mret, res_ret in H.
    injection H as <- _. unfold instr_line. eexists. reflexivity.
  - apply bind_Ok in H as (v & _ & H). unfold mret, res_ret in H.
    injection H as <- _. unfold byte_line. eexists. reflexivity.
Qed.

(** The loop only appends to what was printed, and the [k]-th line it
    appends carries the address of the running cursor after [k]
    instructions. *)
Lemma disasm_loop_addresses (fuel : nat) :
  forall (data : list byte) (base stop i : Z) (out : list string) (r : run),
  disasm_loop fuel data base stop i out = Some r ->
  exists new, printed r = out ++ new /\
    forall (k : nat) (line : string), new !! k = Some line ->
      at_address (base + cursor_after (size_at data) k i) line.
Proof.
  induction fuel as [|fuel IH]; intros data base stop i out r; simpl.
  - destruct ((i <? stop) && (i <? len data)); [discriminate|].
    intros [= <-]. exists []. simpl. split; [now rewrite app_nil_r|].
    intros k line Hk. now rewrite lookup_nil in Hk.
  - destruct ((i <? stop) && (i <? len data)).
    + destruct (step data base i) as [[line size]|e] eqn:Hstep.
      * intros H. apply IH in H as (new & Hnew & Haddr).
        exists (line :: new). split.
        { rewrite Hnew, <- app_assoc. reflexivity. }
        intros [|k] l Hk; simpl in *.
        { injection Hk as <-. eapply step_at_address; eassumption. }
        rewrite <- (step_size_at _ _ _ _ _ Hstep). now apply Haddr.
      * intros [= <-]. exists []. simpl. split; [now rewrite app_nil_r|].
        intros k line Hk. now rewrite lookup_nil in Hk.
    + intros [= <-]. exists []. simpl. split; [now rewrite app_nil_r|].
      intros k line Hk. now rewrite lookup_nil in Hk.
Qed.

End DisasmAddresses.

Section CompareRomLoop.

Import CompareRom.

(** [oplen] has an entry for every byte value, and it is 1, 2 or 3. *)
Lemma oplen_byte (b : byte) :
  exists n, getitem oplen (byte_val b) = Ok n /\ 1 <= n <= 3.
Proof.
  destruct b; eexists; (split; [vm_compute; reflexivity|]);
    split; discriminate.
Qed.

Lemma length_at_pos (rom : list byte) (c : Z) : 1 <= length_at rom c.
Proof.
  unfold length_at. destruct (getitem rom c) as [b|]; [|lia].
  destruct (oplen_byte b) as (n & -> & Hn). lia.
Qed.

(** A pass that appends a line appends the address of the cursor and moves
    the cursor by the [oplen] entry of the byte under it. *)
Lemma step_append (rom : list byte) (end_ i : Z) (line : Z * string) (n : Z) :
  step rom end_ i = Ok (Append line n) ->
  n = length_at rom i /\ line.1 = 0x8000 + (i - 16) /\ i + n <= end_.
Proof.
  intros H. unfold length_at. unfold step in H.
  apply bind_Ok in H as (b & Hb & H). rewrite Hb.
  cbv zeta in H. set (nm := default _ _) in H. clearbody nm.
  apply bind_Ok in H as (m & Hm & H). rewrite Hm.
  destruct (Z.gtb_spec (i + m) end_); [discriminate|].
  destruct (m =? 3).
  - apply bind_Ok in H as (b1 & _ & H). apply bind_Ok in H as (b2 & _ & H).
    unfold mret, res_ret in H. injection H as <- <-. split; [|split]; trivial.
  - destruct (m =? 2).
    + apply bind_Ok in H as (b1 & _ & H).
      unfold mret, res_ret in H. injection H as <- <-. split; [|split]; trivial.
    + unfold mret, res_ret in H. injection H as <- <-. split; [|split]; trivial.
Qed.

Lemma step_append_length (rom : list byte) (end_ i : Z) (line : Z * string)
    (n : Z) :
  step rom end_ i = Ok (Append line n) -> 1 <= n <= 3.
Proof.
  intros H. apply step_append in H as (-> & _ & _). unfold length_at.
  destruct (getitem rom i) as [b|]; [|lia].
  destruct (oplen_byte b) as (m & -> & Hm). exact Hm.
Qed.

(** With the cursor inside the buffer, a pass raises nothing: the check
    [i + length > end] comes before the operand bytes are read. *)
Lemma step_no_raise (rom : list byte) (end_ i : Z) :
  - len rom <= i < end_ -> end_ <= len rom ->
  exists p, step rom end_ i = Ok p.
Proof.
  intros Hi Hend. unfold step.
  destruct (getitem_in_range rom i) as [b Hb]; [lia|].
  rewrite Hb, bind_Ok_l. cbv zeta.
  destruct (oplen_byte b) as (m & Hm & Hrange). rewrite Hm, bind_Ok_l.
  destruct (Z.gtb_spec (i + m) end_); [eexists; reflexivity|].
  destruct (Z.eqb_spec m 3).
  - destruct (getitem_in_range rom (i + 1)) as [b1 Hb1]; [lia|].
    destruct (getitem_in_range rom (i + 2)) as [b2 Hb2]; [lia|].
    rewrite Hb1, bind_Ok_l, Hb2, bind_Ok_l. eexists; reflexivity.
  - destruct (Z.eqb_spec m 2).
    + destruct (getitem_in_range rom (i + 1)) as [b1 Hb1]; [lia|].
      rewrite Hb1, bind_Ok_l. eexists; reflexivity.
    + eexists; reflexivity.
Qed.

(** An instruction that would run past [end] leaves the loop before any of
    its operand bytes is read. *)
Lemma step_truncated (rom : list byte) (end_ i : Z) (b : byte) (n : Z) :
  getitem rom i = Ok b -> getitem oplen (byte_val b) = Ok n ->
  end_ < i + n -> step rom end_ i = Ok Break.
Proof.
  intros Hb Hn Hend. unfold step. rewrite Hb, bind_Ok_l. cbv zeta.
  rewrite Hn, bind_Ok_l.
  destruct (Z.gtb_spec (i + n) end_); [reflexivity | lia].
Qed.

Lemma compare_loop_enough (fuel : nat) :
  forall (rom : list byte) (end_ i : Z) (lines : list (Z * string)),
  end_ - i <= Z.of_nat fuel ->
  exists r, disasm_loop fuel rom end_ i lines = Some r.
Proof.
  induction fuel as [|fuel IH]; intros rom end_ i lines Hfuel; simpl.
  - destruct (Z.ltb_spec i end_); eauto; lia.
  - destruct (Z.ltb_spec i end_); eauto.
    destruct (step rom end_ i) as [[|line n]|e] eqn:Hstep; eauto.
    apply step_append in Hstep as (-> & _ & _).
    pose proof (length_at_pos rom i). apply IH. lia.
Qed.

(** Started inside the buffer, the loop returns its list and raises
    nothing. *)
Lemma compare_loop_returns (fuel : nat) :
  forall (rom : list byte) (end_ i : Z) (lines : list (Z * string)),
  end_ - i <= Z.of_nat fuel -> - len rom <= i -> end_ <= len rom ->
  exists out, disasm_loop fuel rom end_ i lines = Some (Ok out).
Proof.
  induction fuel as [|fuel IH]; intros rom end_ i lines Hfuel Hi Hend; simpl.
  - destruct (Z.ltb_spec i end_); eauto; lia.
  - destruct (Z.ltb_spec i end_); eauto.
    destruct (step_no_raise rom end_ i) as [[|line n] Hp]; [lia|assumption|..];
      rewrite Hp; eauto.
    apply step_append in Hp as (-> & _ & _).
    pose proof (length_at_pos rom i). apply IH; lia.
Qed.

(** The [k]-th pair the loop appends carries the translated running cursor
    after [k] instructions. *)
Lemma compare_loop_addresses (fuel : nat) :
  forall (rom : list byte) (end_ i : Z) (lines out : list (Z * string)),
  disasm_loop fuel rom end_ i lines = Some (Ok out) ->
  exists new, out = lines ++ new /\
    forall (k : nat) (line : Z * string), new !! k = Some line ->
      line.1 = 0x8000 + (cursor_after (length_at rom) k i - 16).
Proof.
  induction fuel as [|fuel IH]; intros rom end_ i lines out; simpl.
  - destruct (i <? end_); [discriminate|].
    intros [= <-]. exists []. split; [now rewrite app_nil_r|].
    intros k line Hk. now rewrite lookup_nil in Hk.
  - destruct (i <? end_).
    + destruct (step rom end_ i) as [[|line n]|e] eqn:Hstep.
      * intros [= <-]. exists []. split; [now rewrite app_nil_r|].
        intros k line Hk. now rewrite lookup_nil in Hk.
      * intros H. apply IH in H as (new & Hnew & Haddr).
        apply step_append in Hstep as (-> & Hnes & _).
        exists (line :: new). split.
        { rewrite Hnew, <- app_assoc. reflexivity. }
        intros [|k] l Hk; simpl in *.
        { injection Hk as <-. assumption. }
        now apply Haddr.
      * discriminate.
    + intros [= <-]. exists []. split; [now rewrite app_nil_r|].
      intros k line Hk. now rewrite lookup_nil in Hk.
Qed.

End CompareRomLoop.

Section Slices.

Lemma getitem_app_middle {A : Type} (pre mid post : list A) (j : nat) (x : A) :
  mid !! j = Some x ->
  getitem (pre ++ mid ++ post) (len pre + Z.of_nat j) = Ok x.
Proof.
  intros Hx. apply getitem_lookup; [unfold len; lia|].
  replace (Z.to_nat (len pre + Z.of_nat j)) with (length pre + j)%nat
    by (unfold len; lia).
  rewrite lookup_app_r by lia.
  replace (length pre + j - length pre)%nat with j by lia.
  now apply lookup_app_l_Some.
Qed.

Lemma slice_app_middle {A : Type} (pre mid post : list A) :
  slice (pre ++ mid ++ post) (len pre) (len pre + len mid) = mid.
Proof.
  unfold slice, clip. rewrite !len_app.
  pose proof (len_nonneg pre). pose proof (len_nonneg mid).
  pose proof (len_nonneg post).
  destruct (Z.ltb_spec (len pre) 0); [lia|].
  destruct (Z.ltb_spec (len pre + len mid) 0); [lia|].
  rewrite !Z.min_l by lia.
  replace (Z.to_nat (len pre)) with (length pre) by (unfold len; lia).
  replace (Z.to_nat (len pre + len mid - len pre)) with (length mid)
    by (unfold len; lia).
  rewrite drop_app_length. apply take_app_length.
Qed.

End Slices.

(* ===================================================================== *)
(** ** scripts/disasm.py: the operand formatter and the decode loop *)
(* ===================================================================== *)

Section DisasmClaims.

Import Disasm.

Lemma OPCODES_rel_size (op : Z) (name : string) (size : Z) :
  OPCODES !! op = Some (name, "rel", size) -> size = 2.
Proof.
  intros H. apply OPCODES_lookup_item in H.
  assert (Hall : forallb rel_size_ok OPCODES_items = true)
    by (vm_compute; reflexivity).
  rewrite forallb_forall in Hall. apply Hall in H.
  unfold rel_size_ok in H. simpl in H. lia.
Qed.

Lemma fmt_operand_rel (val addr : Z) :
  fmt_operand "rel" val addr = " $" +:+ pct_04X (addr + 2 + displacement val).
Proof. reflexivity. Qed.

(** C1: in relative mode the operand formatter prints the branch target
    [addr + 2 + displacement], the displacement being the operand byte when
    it is below 128 and the operand byte minus 256 otherwise; decoding a
    relative-mode opcode followed by an operand byte prints that target for
    the address of the opcode; and [BPL] at $8010 with operand $FE prints
    the target $8010. *)
Theorem relative_branch_target :
  (forall val addr : Z,
     fmt_operand "rel" val addr
     = " $" +:+ pct_04X (addr + 2 + (if val <? 128 then val else val - 256)))
  /\ (forall (pre post : list byte) (op b : byte) (base : Z)
             (name : string) (size : Z),
        OPCODES !! byte_val op = Some (name, "rel", size) ->
        step (pre ++ op :: b :: post) base (len pre)
        = Ok (instr_line (base + len pre)
                (pct_02X (byte_val op) +:+ " " +:+ pct_02X (byte_val b))
                name
                (" $" +:+ pct_04X
                   (base + len pre + 2 + displacement (byte_val b))),
              2))
  /\ fmt_operand "rel" 0xfe 0x8010 = " $8010"
  /\ disasm [x10; xfe] 0x8010 None None
     = Some (Run ["$8010: 10 FE     BPL $8010"] 2 None).
Proof.
  split; [intros; apply fmt_operand_rel|].
  split; [|split; reflexivity].
  intros pre post op b base name size Hop.
  pose proof (OPCODES_rel_size _ _ _ Hop) as ->.
  unfold step, byte_at.
  pose proof (getitem_app_middle pre [op; b] post 0 op eq_refl) as H0.
  pose proof (getitem_app_middle pre [op; b] post 1 b eq_refl) as H1.
  change (Z.of_nat 0) with 0 in H0. change (Z.of_nat 1) with 1 in H1.
  rewrite Z.add_0_r in H0. simpl app in H0, H1.
  rewrite H0, bind_Ok_l. unfold mret at 1, res_ret at 1. rewrite bind_Ok_l.
  rewrite Hop.
  pose proof (slice_app_middle pre [op; b] post) as Hs. simpl in Hs.
  change (len [op; b]) with 2 in Hs. rewrite Hs.
  unfold operand_val, byte_at.
  change (2 =? 1) with false. change (2 =? 2) with true. cbv iota.
  rewrite H1, bind_Ok_l. unfold mret at 1, res_ret at 1. rewrite bind_Ok_l.
  rewrite fmt_operand_rel. reflexivity.
Qed.

Lemma relative_branch_target_witness :
  step ([] ++ [x10; xfe]) 0x8010 (len (@nil byte))
  = Ok ("$8010: 10 FE     BPL $8010", 2).
Proof.
  exact (proj1 (proj2 relative_branch_target) [] [] x10 xfe 0x8010 "BPL" 2
           eq_refl).
Defined.

Lemma byte_at_past_end (data : list byte) (i : Z) :
  len data <= i -> byte_at data i = Raise IndexError.
Proof. intros H. unfold byte_at. now rewrite getitem_past_end. Qed.

Lemma operand_val_truncated (data : list byte) (i size : Z) :
  0 <= i -> 2 <= size <= 3 -> len data < i + size ->
  operand_val data i size = Raise IndexError.
Proof.
  intros Hi Hsize Hlen. unfold operand_val.
  destruct (Z.eqb_spec size 1); [lia|].
  destruct (Z.eqb_spec size 2).
  - apply byte_at_past_end. lia.
  - destruct (byte_at data (i + 1)) as [lo|[]] eqn:Hlo; [|reflexivity].
    rewrite bind_Ok_l, byte_at_past_end by lia. reflexivity.
Qed.

(** C2, on [disasm.py]: when the operand bytes of a defined opcode lie past
    the end of the buffer, the pass raises [IndexError] where it reads
    them; the loop has no check in front of the read. On the buffer [4C]
    the call ends by that exception, and on [EA 4C 00] it ends by it after
    the first line was printed. *)
Theorem truncated_operand_raises :
  (forall (data : list byte) (base i : Z) (b : byte)
          (name mode : string) (size : Z),
     0 <= i -> getitem data i = Ok b ->
     OPCODES !! byte_val b = Some (name, mode, size) ->
     len data < i + size ->
     step data base i = Raise IndexError)
  /\ disasm [x4c] 0x8000 None None = Some (Run [] 0 (Some IndexError))
  /\ disasm [xea; x4c; x00] 0x8000 None None
     = Some (Run ["$8000: EA        NOP"] 1 (Some IndexError)).
Proof.
  split; [|split; reflexivity].
  intros data base i b name mode size Hi Hb Hop Hlen.
  pose proof (OPCODES_size _ _ _ _ Hop) as Hsize.
  pose proof (getitem_Ok_range _ _ _ Hb) as Hrange.
  unfold step, byte_at. rewrite Hb, bind_Ok_l.
  unfold mret at 1, res_ret at 1. rewrite bind_Ok_l, Hop.
  rewrite operand_val_truncated by lia. reflexivity.
Qed.

Lemma truncated_operand_raises_witness :
  step [x4c] 0x8000 0 = Raise IndexError.
Proof.
  apply (proj1 truncated_operand_raises [x4c] 0x8000 0 x4c "JMP" "abs" 3);
    [lia | reflexivity | reflexivity | reflexivity].
Defined.

Lemma OPCODES_name (op : Z) (name mode : string) (size : Z) :
  OPCODES !! op = Some (name, mode, size) -> name <> ".byte".
Proof.
  intros H. apply OPCODES_lookup_item in H.
  assert (Hall : forallb name_ok OPCODES_items = true)
    by (vm_compute; reflexivity).
  rewrite forallb_forall in Hall. apply Hall in H.
  unfold name_ok in H. intros ->. discriminate.
Qed.

Lemma step_unknown (data : list byte) (base i : Z) (b : byte) :
  getitem data i = Ok b -> OPCODES !! byte_val b = None ->
  step data base i = Ok (byte_line (base + i) (byte_val b), 1).
Proof.
  intros Hb Hop. unfold step, byte_at. rewrite Hb, bind_Ok_l.
  unfold mret at 1, res_ret at 1. rewrite bind_Ok_l, Hop, bind_Ok_l.
  reflexivity.
Qed.

(** C4: at a byte without an entry in [OPCODES], a pass prints one
    [.byte] line for the current address and adds exactly 1 to the cursor;
    the loop then goes on from the next byte; [.byte] is the mnemonic of
    no entry; and [FF] at base $8000 gives the single line
    [$8000: FF        .byte $FF], the cursor ending at offset 1, which is
    address $8001. *)
Theorem unknown_byte_is_raw_data :
  (forall (data : list byte) (base i : Z) (b : byte),
     getitem data i = Ok b -> OPCODES !! byte_val b = None ->
     step data base i = Ok (byte_line (base + i) (byte_val b), 1))
  /\ (forall (fuel : nat) (data : list byte) (base stop i : Z)
             (out : list string) (b : byte),
        i < stop -> i < len data ->
        getitem data i = Ok b -> OPCODES !! byte_val b = None ->
        disasm_loop (S fuel) data base stop i out
        = disasm_loop fuel data base stop (i + 1)
            (out ++ [byte_line (base + i) (byte_val b)]))
  /\ (forall (op : Z) (name mode : string) (size : Z),
        OPCODES !! op = Some (name, mode, size) -> name <> ".byte")
  /\ disasm [xff] 0x8000 None None
     = Some (Run ["$8000: FF        .byte $FF"] 1 None)
  /\ 0x8000 + 1 = 0x8001.
Proof.
  split; [exact step_unknown|].
  split; [|split; [exact OPCODES_name | split; reflexivity]].
  intros fuel data base stop i out b Hstop Hlen Hb Hop. simpl.
  destruct (Z.ltb_spec i stop); [|lia].
  destruct (Z.ltb_spec i (len data)); [|lia]. simpl.
  now rewrite (step_unknown _ base _ _ Hb Hop).
Qed.

Lemma unknown_byte_is_raw_data_witness :
  step [xff] 0x8000 0 = Ok ("$8000: FF        .byte $FF", 1).
Proof.
  apply (proj1 unknown_byte_is_raw_data [xff] 0x8000 0 xff);
    reflexivity.
Defined.

Lemma jmp_absolute_run (lo hi : byte) :
  disasm [x4c; lo; hi] 0x8000 None None
  = Some (Run [instr_line 0x8000
                 ("4C " +:+ pct_02X (byte_val lo) +:+ " "
                        +:+ pct_02X (byte_val hi))
                 "JMP"
                 (" $" +:+ pct_04X (Z.lor (byte_val lo)
                                      (Z.shiftl (byte_val hi) 8)))]
            3 None).
Proof. reflexivity. Qed.

(** C7: decoding the buffer [4C 00 90] at base $8000 prints exactly one
    line, for address $8000, with the mnemonic JMP, whose table entry is in
    absolute mode with size 3, and the operand $9000; in general the
    operand of [4C lo hi] is the 16-bit value lo + 256 * hi. *)
Theorem jmp_absolute_end_to_end :
  disasm [x4c; x00; x90] 0x8000 None None
  = Some (Run ["$8000: 4C 00 90  JMP $9000"] 3 None)
  /\ OPCODES !! 0x4c = Some ("JMP", "abs", 3)
  /\ fmt_operand "abs" 0x9000 0x8000 = " $9000"
  /\ (forall lo hi : byte,
        disasm [x4c; lo; hi] 0x8000 None None
        = Some (Run [instr_line 0x8000
                       ("4C " +:+ pct_02X (byte_val lo) +:+ " "
                              +:+ pct_02X (byte_val hi))
                       "JMP"
                       (" $" +:+ pct_04X (byte_val lo + 256 * byte_val hi))]
                  3 None)).
Proof.
  split; [reflexivity|]. split; [reflexivity|]. split; [reflexivity|].
  intros lo hi. rewrite <- little_endian. apply jmp_absolute_run.
Qed.

(** C8: a pass that prints a line adds at least 1 to the cursor: the
    table size, which is 1, 2 or 3, at a defined opcode, and exactly 1 at a
    byte without an entry. Hence every call of [disasm] ends: the distance
    from the cursor to the nearer bound is enough fuel, and any larger
    amount of fuel gives the same outcome. The loop of [compare_rom.py]
    likewise adds 1, 2 or 3 in every pass that appends, and ends. *)
Theorem decode_forward_progress :
  (forall (data : list byte) (base i : Z) (line : string) (size : Z),
     step data base i = Ok (line, size) ->
     1 <= size <= 3 /\
     exists b, getitem data i = Ok b /\
       match OPCODES !! byte_val b with
       | Some (_, _, sz) => size = sz
       | None => size = 1
       end)
  /\ (forall (data : list byte) (base : Z) (start end_ : option Z),
        exists r, disasm data base start end_ = Some r /\
          let i := default base start - base in
          let stop := default (base + len data) end_ - base in
          forall fuel : nat,
            (Z.to_nat (Z.min stop (len data) - i) <= fuel)%nat ->
            disasm_loop fuel data base stop i [] = Some r)
  /\ (forall (rom : list byte) (end_ i : Z) (line : Z * string) (n : Z),
        CompareRom.step rom end_ i = Ok (CompareRom.Append line n) ->
        1 <= n <= 3)
  /\ (forall (rom : list byte) (start_file count : Z),
        exists r, CompareRom.disasm rom start_file count = Some r).
Proof.
  split; [|split; [|split]].
  - intros data base i line size H. split.
    + eapply step_advances; eassumption.
    + eapply step_size; eassumption.
  - intros data base start end_. unfold disasm.
    set (i := default base start - base).
    set (stop := default (base + len data) end_ - base).
    destruct (disasm_loop_enough (Z.to_nat (Z.min stop (len data) - i))
                data base stop i []) as [r Hr]; [lia|].
    exists r. split; [assumption|].
    intros fuel Hfuel. eapply disasm_loop_more; eassumption.
  - intros rom end_ i line n H. eapply step_append_length; eassumption.
  - intros rom start_file count. unfold CompareRom.disasm.
    apply compare_loop_enough. lia.
Qed.

Lemma decode_forward_progress_witness : 1 <= 2 <= 3.
Proof.
  apply (proj1 decode_forward_progress [xa9; x05; xea] 0x8000 0
           "$8000: A9 05     LDA #$05" 2).
  reflexivity.
Defined.

(** C10, as the code has it: for a start at or past the end of the
    buffer, or an end before the start, [disasm] returns at once in the
    ordinary way, having printed nothing and raised nothing. *)
Theorem invalid_range_prints_nothing :
  forall (data : list byte) (base start end_ : Z),
    invalid_range data base start end_ ->
    disasm data base (Some start) (Some end_)
    = Some (Run [] (start - base) None).
Proof.
  intros data base start end_ Hbad. unfold disasm. simpl default.
  assert (C : (start - base <? end_ - base) && (start - base <? len data)
              = false).
  { destruct Hbad.
    - destruct (Z.ltb_spec (start - base) (len data)); [lia|].
      apply andb_false_r.
    - destruct (Z.ltb_spec (start - base) (end_ - base)); [lia|].
      reflexivity. }
  destruct (Z.to_nat _); simpl; now rewrite C.
Qed.

Lemma invalid_range_prints_nothing_witness :
  disasm [xea] 0x8000 (Some 0x8001) (Some 0x8002) = Some (Run [] 1 None).
Proof.
  apply (invalid_range_prints_nothing [xea] 0x8000 0x8001 0x8002).
  left. vm_compute. discriminate.
Defined.

(** C10, as stated, fails: with the one-byte buffer [EA] at base $8000, a
    start of $8001 is at the end of the buffer, and [disasm] returns
    normally; no error outcome is produced. *)
Lemma invalid_range_not_signalled :
  invalid_range [xea] 0x8000 0x8001 0x8002
  /\ invalid_range [xea; xea] 0x8000 0x8001 0x8000
  /\ ~ (forall (data : list byte) (base start end_ : Z),
          invalid_range data base start end_ ->
          exists (r : run) (e : exn),
            disasm data base (Some start) (Some end_) = Some r
            /\ raised r = Some e).
Proof.
  split; [left; vm_compute; discriminate|].
  split; [right; lia|].
  intros H.
  destruct (H [xea] 0x8000 0x8001 0x8002) as (r & e & Hr & He).
  { left. vm_compute. discriminate. }
  vm_compute in Hr. injection Hr as <-. discriminate.
Qed.

End DisasmClaims.

(* ===================================================================== *)
(** ** Addresses along a run, in both scripts *)
(* ===================================================================== *)

Section Addresses.

(** C9: in a run of [disasm.py]'s [disasm], the [k]-th printed line starts
    with the address [base + c], and in a run of [compare_rom.py]'s
    [disasm] the [k]-th pair holds the address [0x8000 + (c - 16)], where
    [c] is the running cursor after [k] instructions; in both, the address
    for an earlier instruction is strictly below the address for a later
    one. *)
Theorem addresses_follow_cursor :
  (forall (data : list byte) (base : Z) (start end_ : option Z) (r : Disasm.run),
     Disasm.disasm data base start end_ = Some r ->
     let addr (k : nat) :=
       base + cursor_after (size_at data) k (default base start - base) in
     (forall (k : nat) (line : string),
        Disasm.printed r !! k = Some line -> at_address (addr k) line)
     /\ (forall j k : nat, (j < k)%nat -> addr j < addr k))
  /\ (forall (rom : list byte) (start_file count : Z)
             (lines : list (Z * string)),
        CompareRom.disasm rom start_file count = Some (Ok lines) ->
        let addr (k : nat) :=
          0x8000 + (cursor_after (length_at rom) k start_file - 16) in
        (forall (k : nat) (line : Z * string),
           lines !! k = Some line -> line.1 = addr k)
        /\ (forall j k : nat, (j < k)%nat -> addr j < addr k)).
Proof.
  split.
  - intros data base start end_ r Hr addr. split.
    + unfold Disasm.disasm in Hr.
      apply disasm_loop_addresses in Hr as (new & Hnew & Haddr).
      simpl in Hnew. rewrite Hnew. exact Haddr.
    + intros j k Hjk. unfold addr.
      pose proof (cursor_after_lt (size_at data) (size_at_pos data) j k
                    (default base start - base) Hjk).
      lia.
  - intros rom start_file count lines Hr addr. split.
    + unfold CompareRom.disasm in Hr.
      apply compare_loop_addresses in Hr as (new & Hnew & Haddr).
      simpl in Hnew. rewrite Hnew. exact Haddr.
    + intros j k Hjk. unfold addr.
      pose proof (cursor_after_lt (length_at rom) (length_at_pos rom) j k
                    start_file Hjk).
      lia.
Qed.

Lemma addresses_follow_cursor_witness :
  at_address 0x8002 "$8002: EA        NOP" /\ 0x8001 = 0x8000 + (17 - 16).
Proof.
  split.
  - exact (proj1 (proj1 addresses_follow_cursor [xa9; x05; xea] 0x8000
                    None None
                    (Disasm.Run ["$8000: A9 05     LDA #$05";
                                 "$8002: EA        NOP"] 3 None)
                    eq_refl)
             1%nat "$8002: EA        NOP" eq_refl).
  - exact (proj1 (proj2 addresses_follow_cursor
                    (replicate 16 x00 ++ [xea; xa9; x05]) 16 3
                    [(0x8000, "NOP"); (0x8001, "LDA# $05")]
                    eq_refl)
             1%nat (0x8001, "LDA# $05") eq_refl).
Defined.

End Addresses.

(* ===================================================================== *)
(** ** Splitting a text into words *)
(* ===================================================================== *)

Section Words.

Lemma app_cons (c : ascii) (s t : string) :
  String c s +:+ t = String c (s +:+ t).
Proof. reflexivity. Qed.

Lemma app_empty_r (s : string) : s +:+ "" = s.
Proof. induction s as [|c s IH]; [reflexivity|]. now rewrite app_cons, IH. Qed.

Lemma app_assoc_string (s t u : string) : (s +:+ t) +:+ u = s +:+ t +:+ u.
Proof.
  induction s as [|c s IH]; [reflexivity|]. now rewrite !app_cons, IH.
Qed.

Lemma split_from_cons (cur : string) (c : ascii) (s : string) :
  split_from cur (String c s)
  = if isspace c then flush cur ++ split_from "" s
    else split_from (cur +:+ String c "") s.
Proof. reflexivity. Qed.

Lemma nonblank_cons (c : ascii) (s : string) :
  nonblank (String c s) = true -> isspace c = false /\ nonblank s = true.
Proof.
  change (nonblank (String c s)) with (negb (isspace c) && nonblank s).
  destruct (isspace c), (nonblank s); simpl; intros H;
    first [discriminate | split; reflexivity].
Qed.

(** A run without white space is read to its end and comes out as one
    word, joined to the run read so far. *)
Lemma split_from_nonblank (w : string) :
  forall cur, nonblank w = true -> split_from cur w = flush (cur +:+ w).
Proof.
  induction w as [|c w IH]; intros cur Hw.
  - now rewrite app_empty_r.
  - apply nonblank_cons in Hw as [Hc Hw].
    rewrite split_from_cons, Hc, IH by assumption.
    now rewrite app_assoc_string.
Qed.

(** A white-space character closes the word being read. *)
Lemma split_from_blank (n : string) :
  forall (cur : string) (c : ascii) (w : string),
  nonblank n = true -> isspace c = true ->
  split_from cur (n +:+ String c w) = flush (cur +:+ n) ++ split_from "" w.
Proof.
  induction n as [|a n IH]; intros cur c w Hn Hc.
  - change ("" +:+ String c w) with (String c w).
    now rewrite split_from_cons, Hc, app_empty_r.
  - apply nonblank_cons in Hn as [Ha Hn].
    rewrite app_cons, split_from_cons, Ha, IH by assumption.
    now rewrite app_assoc_string.
Qed.

Lemma is_word_spec (s : string) :
  is_word s = true -> nonblank s = true /\ flush s = [s].
Proof.
  unfold is_word. destruct s as [|c s]; [discriminate|].
  simpl. intros H. split; [assumption | reflexivity].
Qed.

(** Two words with one space between them split into the two words. *)
Lemma split_two_words (n w : string) :
  is_word n = true -> is_word w = true -> split (n +:+ " " +:+ w) = [n; w].
Proof.
  intros Hn Hw. apply is_word_spec in Hn as [Hn Hfn].
  apply is_word_spec in Hw as [Hw Hfw]. unfold split.
  change (" " +:+ w) with (String " " w).
  rewrite split_from_blank by (assumption || reflexivity).
  rewrite split_from_nonblank by assumption.
  change ("" +:+ n) with n. change ("" +:+ w) with w.
  now rewrite Hfn, Hfw.
Qed.

Lemma split_one_word (n : string) : is_word n = true -> split n = [n].
Proof.
  intros Hn. apply is_word_spec in Hn as [Hn Hfn]. unfold split.
  rewrite split_from_nonblank by assumption. exact Hfn.
Qed.

End Words.

(* ===================================================================== *)
(** ** scripts/compare_rom.py: normalize *)
(* ===================================================================== *)

Section Normalize.

Import CompareRom.

Lemma str_in_In (x : string) (xs : list string) :
  str_in x xs = true -> In x xs.
Proof.
  unfold str_in. intros H. apply existsb_exists in H as (y & Hy & Heq).
  apply String.eqb_eq in Heq. now subst.
Qed.


(** [normalize] either returns its argument, or its argument is made of
    two words, a listed mnemonic and a five-character operand that starts
    with the dollar sign, and it returns the mnemonic followed by the
    wildcard. *)
Lemma normalize_cases (x : string) :
  normalize x = x
  \/ exists m operand : string,
       In m absolute_names /\ split x = [m; operand]
       /\ startswith_dollar operand = true /\ String.length operand = 5%nat
       /\ normalize x = m +:+ " $????".
Proof.
  unfold normalize.
  destruct (split x) as [|p0 [|p1 [|p2 rest]]]; auto.
  destruct (startswith_dollar p1 && (String.length p1 =? 5)%nat) eqn:C; auto.
  destruct (str_in p0 absolute_names) eqn:Hin; auto.
  apply andb_true_iff in C as [Hd Hlen]. apply Nat.eqb_eq in Hlen.
  right. exists p0, p1.
  split; [now apply str_in_In|]. repeat split; assumption.
Qed.

(** A listed mnemonic followed by the wildcard is left as it is. *)
Lemma normalize_wildcard (m : string) :
  In m absolute_names -> normalize (m +:+ " $????") = m +:+ " $????".
Proof.
  unfold absolute_names. simpl In. intros H.
  repeat (destruct H as [<-|H]; [reflexivity|]). contradiction.
Qed.

(** C5: [normalize] is idempotent, on every text. *)
Theorem normalize_idempotent :
  forall x : string, normalize (normalize x) = normalize x.
Proof.
  intros x.
  destruct (normalize_cases x) as [H | (m & operand & Hin & _ & _ & _ & H)].
  - now rewrite !H.
  - rewrite H. now apply normalize_wildcard.
Qed.

Lemma normalize_two_words (n w : string) :
  is_word n = true -> is_word w = true ->
  normalize (n +:+ " " +:+ w)
  = if startswith_dollar w && (String.length w =? 5)%nat
    then if str_in n absolute_names then n +:+ " $????"
         else n +:+ " " +:+ w
    else n +:+ " " +:+ w.
Proof.
  intros Hn Hw. unfold normalize. now rewrite split_two_words.
Qed.

Lemma normalize_one_word (n : string) : is_word n = true -> normalize n = n.
Proof. intros Hn. unfold normalize. now rewrite split_one_word. Qed.

Lemma hex4_word (v : Z) : 0 <= v < 65536 -> hex4_ok v = true.
Proof.
  intros Hv.
  assert (H : forallb (fun hi => forallb (fun lo =>
                hex4_ok (byte_val lo + 256 * byte_val hi)) all_bytes)
                all_bytes = true) by (vm_compute; reflexivity).
  pose proof (Z.div_mod v 256 ltac:(lia)) as Hdm.
  pose proof (Z.mod_pos_bound v 256 ltac:(lia)) as Hmod.
  destruct (byte_of_val (v mod 256)) as [lo Hlo]; [lia|].
  destruct (byte_of_val (v / 256)) as [hi Hhi]; [lia|].
  pose proof (for_all_bytes _ (for_all_bytes _ H hi) lo) as Hb.
  simpl in Hb. rewrite Hlo, Hhi in Hb.
  replace (v mod 256 + 256 * (v / 256)) with v in Hb by lia.
  exact Hb.
Qed.

Lemma hex2_word (b : byte) : hex2_ok b = true.
Proof. apply for_all_bytes. vm_compute. reflexivity. Qed.

Lemma mnemonic_word (b : byte) : is_word (mnemonic b) = true.
Proof. apply (for_all_bytes (fun b => is_word (mnemonic b))). vm_compute. reflexivity. Qed.

Lemma absolute_names_words (m : string) :
  In m absolute_names -> is_word m = true.
Proof.
  assert (H : forallb is_word absolute_names = true) by reflexivity.
  rewrite forallb_forall in H. apply H.
Qed.

(** The operand word ["$" + digits]: a word that starts with the dollar
    sign and is one longer than the digits. *)
Lemma dollar_word (h : string) :
  nonblank h = true ->
  is_word ("$" +:+ h) = true /\ startswith_dollar ("$" +:+ h) = true
  /\ String.length ("$" +:+ h) = S (String.length h).
Proof. intros Hh. repeat split. exact Hh. Qed.

Lemma normalize_absolute (n : string) (v : Z) :
  is_word n = true -> 0 <= v < 65536 ->
  normalize (n +:+ " $" +:+ pct_04X v)
  = if str_in n absolute_names then n +:+ " $????"
    else n +:+ " $" +:+ pct_04X v.
Proof.
  intros Hn Hv. apply hex4_word in Hv. unfold hex4_ok in Hv.
  apply andb_true_iff in Hv as [Hlen Hnb]. apply Nat.eqb_eq in Hlen.
  destruct (dollar_word _ Hnb) as (Hw & Hd & Hl).
  change (n +:+ " $" +:+ pct_04X v) with (n +:+ " " +:+ "$" +:+ pct_04X v).
  rewrite normalize_two_words, Hd, Hl, Hlen by assumption. reflexivity.
Qed.


Lemma step_shape (rom : list byte) (end_ i : Z) (line : Z * string) (n : Z) :
  step rom end_ i = Ok (Append line n) -> shape line.2.
Proof.
  intros H. unfold step in H.
  apply bind_Ok in H as (b & Hb & H). cbv zeta in H.
  change (default _ (names !! byte_val b)) with (mnemonic b) in H.
  exists b. remember (mnemonic b) as nm eqn:Hnm. clear Hnm.
  apply bind_Ok in H as (m & Hm & H).
  destruct (i + m >? end_); [discriminate|].
  destruct (m =? 3).
  - apply bind_Ok in H as (b1 & _ & H). apply bind_Ok in H as (b2 & _ & H).
    unfold mret, res_ret in H. injection H as <- _. right. right. eauto.
  - destruct (m =? 2).
    + apply bind_Ok in H as (b1 & _ & H).
      unfold mret, res_ret in H. injection H as <- _. right. left. eauto.
    + unfold mret, res_ret in H. injection H as <- _. left. reflexivity.
Qed.

Lemma compare_loop_shape (fuel : nat) :
  forall (rom : list byte) (end_ i : Z) (lines out : list (Z * string)),
  disasm_loop fuel rom end_ i lines = Some (Ok out) ->
  Forall (fun line => shape line.2) lines ->
  Forall (fun line => shape line.2) out.
Proof.
  induction fuel as [|fuel IH]; intros rom end_ i lines out; simpl.
  - destruct (i <? end_); [discriminate|]. now intros [= <-].
  - destruct (i <? end_); [|now intros [= <-]].
    destruct (step rom end_ i) as [[|line n]|e] eqn:Hstep.
    + now intros [= <-].
    + intros H Hlines. apply IH in H; [assumption|].
      apply Forall_app. split; [assumption|].
      constructor; [|constructor]. eapply step_shape; eassumption.
    + discriminate.
Qed.

Lemma rendered_shape (text : string) : rendered text -> shape text.
Proof.
  intros (rom & start_file & count & nes & lines & Hrun & Hin).
  unfold disasm in Hrun.
  apply compare_loop_shape in Hrun; [|constructor].
  rewrite List.Forall_forall in Hrun. exact (Hrun _ Hin).
Qed.

Lemma two_bytes_range (b1 b2 : byte) :
  0 <= Z.lor (byte_val b1) (Z.shiftl (byte_val b2) 8) < 65536.
Proof.
  rewrite little_endian.
  pose proof (byte_val_range b1). pose proof (byte_val_range b2). lia.
Qed.



End Normalize.

(* ===================================================================== *)
(** ** The two opcode tables side by side *)
(* ===================================================================== *)

Section TwoTables.

Import CompareRom.

(** On the opcodes that [compare_rom.py] names, its lengths are those of
    [disasm.py]. *)
Lemma named_lengths_agree (op : Z) (name mode n : string) (size : Z) :
  Disasm.OPCODES !! op = Some (name, mode, size) ->
  names !! op = Some n ->
  getitem oplen op = Ok size.
Proof.
  intros Hop Hn. apply OPCODES_lookup_item in Hop.
  assert (Hall : forallb named_agree Disasm.OPCODES_items = true)
    by (vm_compute; reflexivity).
  rewrite forallb_forall in Hall. apply Hall in Hop.
  unfold named_agree in Hop. simpl fst in Hop. rewrite Hn in Hop.
  unfold lengths_agree in Hop.
  destruct (getitem oplen op) as [k|]; [|discriminate].
  apply Z.eqb_eq in Hop. now subst.
Qed.

(** [drifted] lists the opcodes of [OPCODES] to which [oplen] gives
    another length than the size of the entry. *)
Lemma drifted_spec (op : Z) :
  In op drifted <->
  exists (name mode : string) (size : Z),
    Disasm.OPCODES !! op = Some (name, mode, size)
    /\ getitem oplen op <> Ok size.
Proof.
  unfold drifted. rewrite in_map_iff. split.
  - intros ([op' [[name mode] size]] & <- & Hin).
    apply filter_In in Hin as [Hin Hne]. simpl.
    exists name, mode, size. split; [now apply OPCODES_lookup_iff|].
    unfold lengths_agree in Hne. intros Heq. rewrite Heq in Hne.
    now rewrite Z.eqb_refl in Hne.
  - intros (name & mode & size & Hop & Hne).
    exists (op, (name, mode, size)). split; [reflexivity|].
    apply filter_In. split; [now apply OPCODES_lookup_iff|].
    unfold lengths_agree. destruct (getitem oplen op) as [n|]; [|reflexivity].
    destruct (Z.eqb_spec n size); [subst; contradiction | reflexivity].
Qed.

(** C3, evaluated on the code: [OPCODES] gives opcode $01, [ORA] in
    indexed-indirect mode, the size 2, and [oplen] gives it the length 1;
    the two tables differ on exactly fourteen opcodes, the eight of the
    indexed-indirect mode and the six shifts, rotates, [INC] and [DEC] in
    absolute-X mode; on [01 EA] the two disassemblers therefore part: one
    2-byte instruction for [disasm.py], two 1-byte entries for
    [compare_rom.py]. *)
Theorem opcode_tables_differ :
  Disasm.OPCODES !! 0x01 = Some ("ORA", "inx", 2)
  /\ getitem oplen 0x01 = Ok 1
  /\ drifted = [0x01; 0x1e; 0x21; 0x3e; 0x41; 0x5e; 0x61; 0x7e;
                0x81; 0xa1; 0xc1; 0xde; 0xe1; 0xfe]
  /\ Disasm.disasm [x01; xea] 0x8000 None None
     = Some (Disasm.Run ["$8000: 01 EA     ORA ($EA,X)"] 2 None)
  /\ disasm (replicate 16 x00 ++ [x01; xea]) 16 2
     = Some (Ok [(0x8000, "?01"); (0x8001, "NOP")]).
Proof. repeat split; vm_compute; reflexivity. Qed.

(** The loop of [compare_rom.py] checks [i + length > end] before it reads
    the operand bytes: started at an offset inside the file, it returns the
    lines appended so far and raises nothing. *)
Lemma compare_disasm_returns (rom : list byte) (start_file count : Z) :
  0 <= start_file ->
  exists lines, disasm rom start_file count = Some (Ok lines).
Proof.
  intros Hstart. unfold disasm. pose proof (len_nonneg rom).
  apply compare_loop_returns; lia.
Qed.

End TwoTables.

(* ===================================================================== *)
(** ** scripts/disasm.py: the table, whole instructions, whole runs *)
(* ===================================================================== *)

Section DisasmTable.

Import Disasm.

Lemma OPCODES_mode_size (op : Z) (name mode : string) (size : Z) :
  OPCODES !! op = Some (name, mode, size) -> mode_size mode = Some size.
Proof.
  intros H. apply OPCODES_lookup_item in H.
  assert (Hall : forallb mode_ok OPCODES_items = true)
    by (vm_compute; reflexivity).
  rewrite forallb_forall in Hall. apply Hall in H. unfold mode_ok in H.
  destruct (mode_size mode) as [n|]; [|discriminate].
  apply Z.eqb_eq in H. now subst.
Qed.

(** X1: In [OPCODES] the addressing mode fixes the size: 1 for implied and
    accumulator, 3 for absolute, absolute-indexed and indirect, 2 for every
    other mode; no entry has a mode outside the thirteen of [fmt_operand]. *)
Theorem mode_fixes_size :
  forall (op : Z) (name mode : string) (size : Z),
    OPCODES !! op = Some (name, mode, size) -> mode_size mode = Some size.
Proof. exact OPCODES_mode_size. Qed.

Lemma mode_fixes_size_witness : mode_size "abx" = Some 3.
Proof. exact (mode_fixes_size 0xbd "LDA" "abx" 3 eq_refl). Defined.

(** For a mode that has a size, the operand text is empty or starts with a
    space followed by a character other than the question mark. *)
Lemma fmt_operand_known (mode : string) (n val addr : Z) :
  mode_size mode = Some n ->
  fmt_operand mode val addr = ""
  \/ exists (c : ascii) (rest : string),
       c <> "?"%char /\ fmt_operand mode val addr = String " " (String c rest).
Proof.
  unfold mode_size. intros H.
  repeat match type of H with
  | context [String.eqb mode ?m] =>
      destruct (String.eqb_spec mode m) as [->|];
        [clear H; first [left; reflexivity
                        | right; eexists _, _; split; [|reflexivity];
                          discriminate]
        | simpl in H]
  end.
  discriminate.
Qed.

(** X2: [fmt_operand] never falls through to [' ???'] on the mode of a table
    entry. *)
Theorem no_unknown_operand :
  forall (op : Z) (name mode : string) (size val addr : Z),
    OPCODES !! op = Some (name, mode, size) ->
    fmt_operand mode val addr <> " ???".
Proof.
  intros op name mode size val addr H. apply OPCODES_mode_size in H.
  destruct (fmt_operand_known mode size val addr H) as [-> | (c & rest & Hc & ->)].
  - discriminate.
  - intros [= ->]. now apply Hc.
Qed.

Lemma no_unknown_operand_witness : fmt_operand "iny" 0x10 0x8000 <> " ???".
Proof. exact (no_unknown_operand 0xb1 "LDA" "iny" 2 0x10 0x8000 eq_refl). Defined.

Lemma hex2_digits (v : Z) :
  0 <= v < 256 ->
  exists c1 c2 : ascii,
    pct_02X v = String c1 (String c2 "")
    /\ hex_value (String c1 (String c2 "")) = Some v.
Proof.
  intros Hv. destruct (byte_of_val v Hv) as [b <-].
  assert (H : forallb hex2_reads all_bytes = true) by (vm_compute; reflexivity).
  pose proof (for_all_bytes _ H b) as Hb. unfold hex2_reads in Hb. clear H.
  destruct (pct_02X (byte_val b)) as [|c1 [|c2 [|c3 h]]];
    try discriminate Hb.
  exists c1, c2. split; [reflexivity|].
  destruct (hex_value (String c1 (String c2 ""))) as [w|]; [|discriminate Hb].
  apply Z.eqb_eq in Hb. now subst.
Qed.

Lemma hex4_digits (v : Z) :
  0 <= v < 65536 ->
  exists c1 c2 c3 c4 : ascii,
    pct_04X v = String c1 (String c2 (String c3 (String c4 "")))
    /\ hex_value (String c1 (String c2 (String c3 (String c4 "")))) = Some v.
Proof.
  intros Hv.
  assert (H : forallb (fun hi => forallb (fun lo =>
                hex4_reads (byte_val lo + 256 * byte_val hi)) all_bytes)
                all_bytes = true) by (vm_compute; reflexivity).
  pose proof (Z.div_mod v 256 ltac:(lia)) as Hdm.
  pose proof (Z.mod_pos_bound v 256 ltac:(lia)) as Hmod.
  destruct (byte_of_val (v mod 256)) as [lo Hlo]; [lia|].
  destruct (byte_of_val (v / 256)) as [hi Hhi]; [lia|].
  pose proof (for_all_bytes _ (for_all_bytes _ H hi) lo) as Hb.
  cbv beta in Hb. rewrite Hlo, Hhi in Hb.
  replace (v mod 256 + 256 * (v / 256)) with v in Hb by lia.
  unfold hex4_reads in Hb. clear H Hlo Hhi Hdm Hmod.
  destruct (pct_04X v) as [|c1 [|c2 [|c3 [|c4 [|c5 h]]]]];
    try discriminate Hb.
  exists c1, c2, c3, c4. split; [reflexivity|].
  destruct (hex_value _) as [w|]; [|discriminate Hb].
  apply Z.eqb_eq in Hb. now subst.
Qed.

Lemma mode_cases (mode : string) (size : Z) :
  mode_size mode = Some size ->
  In (mode, size)
    [("imp", 1); ("acc", 1); ("imm", 2); ("zpg", 2); ("zpx", 2); ("zpy", 2);
     ("inx", 2); ("iny", 2); ("rel", 2); ("abs", 3); ("abx", 3); ("aby", 3);
     ("ind", 3)].
Proof.
  unfold mode_size. intros H.
  repeat match type of H with
  | context [String.eqb mode ?m] =>
      destruct (String.eqb_spec mode m) as [->|];
        [vm_compute in H; injection H as <-; simpl; tauto | simpl in H]
  end.
  discriminate.
Qed.

(** X3: The operand text loses nothing: for an entry of [OPCODES] with operand
    bytes, reading the digits back from the text [fmt_operand] makes gives
    the operand value again; in relative mode, where the text is the branch
    target, for a target inside the 16-bit address space. *)
Theorem operand_round_trip :
  forall (op : Z) (name mode : string) (size v addr : Z),
    OPCODES !! op = Some (name, mode, size) ->
    2 <= size ->
    0 <= v < 256 ^ (size - 1) ->
    (mode = "rel" -> 0 <= addr + 2 + displacement v < 65536) ->
    read_operand mode addr (fmt_operand mode v addr) = Some v.
Proof.
  intros op name mode size v addr Hop Hsize Hv Hrel.
  apply OPCODES_mode_size, mode_cases in Hop. simpl In in Hop.
  repeat (destruct Hop as [Hop|Hop]; [injection Hop as <- <-|]);
    try contradiction; try lia.
  1-6: change (256 ^ (2 - 1)) with 256 in Hv;
       destruct (hex2_digits v Hv) as (c1 & c2 & Hp & Hr);
       unfold fmt_operand; simpl String.eqb; simpl orb; cbv iota;
       rewrite Hp; exact Hr.
  2-5: change (256 ^ (3 - 1)) with 65536 in Hv;
       destruct (hex4_digits v Hv) as (c1 & c2 & c3 & c4 & Hp & Hr);
       unfold fmt_operand; simpl String.eqb; simpl orb; cbv iota;
       rewrite Hp; exact Hr.
  specialize (Hrel eq_refl).
  destruct (hex4_digits _ Hrel) as (d1 & d2 & d3 & d4 & Hp' & Hr').
  rewrite fmt_operand_rel, Hp'.
  change (read_operand "rel" addr
            (" $" +:+ String d1 (String d2 (String d3 (String d4 "")))))
    with (match hex_value (String d1 (String d2 (String d3 (String d4 ""))))
          with
          | Some target => Some ((target - addr - 2) mod 256)
          | None => None
          end).
  rewrite Hr'. f_equal. unfold displacement.
  change (256 ^ (2 - 1)) with 256 in Hv.
  destruct (Z.ltb_spec v 128).
  - replace (addr + 2 + v - addr - 2) with v by lia. apply Z.mod_small. lia.
  - replace (addr + 2 + (v - 256) - addr - 2) with (v + (-1) * 256) by lia.
    rewrite Z.mod_add by lia. apply Z.mod_small. lia.
Qed.

Lemma operand_round_trip_witness :
  read_operand "aby" 0x8000 (fmt_operand "aby" 0x1234 0x8000) = Some 0x1234
  /\ read_operand "rel" 0x8010 (fmt_operand "rel" 0xfe 0x8010) = Some 0xfe.
Proof.
  split.
  - apply (operand_round_trip 0xb9 "LDA" "aby" 3 0x1234 0x8000);
      first [reflexivity | lia | intros H; discriminate H
            | vm_compute; split; [discriminate | reflexivity]].
  - apply (operand_round_trip 0x10 "BPL" "rel" 2 0xfe 0x8010);
      first [reflexivity | lia
            | vm_compute; split; [discriminate | reflexivity]
            | intros _; vm_compute; split; [discriminate | reflexivity]].
Defined.

End DisasmTable.

Section WholeInstruction.

Import Disasm.

Lemma byte_at_app_middle (pre mid post : list byte) (j : nat) (x : byte) :
  mid !! j = Some x ->
  byte_at (pre ++ mid ++ post) (len pre + Z.of_nat j) = Ok (byte_val x).
Proof.
  intros H. unfold byte_at.
  now rewrite (getitem_app_middle pre mid post j x H).
Qed.

(** X4: Length fidelity: when a defined opcode is followed in the buffer by all
    its operand bytes, a pass raises nothing; it prints the address, the
    [size] raw bytes in hexadecimal, the mnemonic and the operand formatted
    from the operand value (low byte first), and it adds [size] to the
    cursor. *)
Theorem step_whole_instruction :
  forall (pre operands post : list byte) (op : byte) (base : Z)
         (name mode : string) (size : Z),
    OPCODES !! byte_val op = Some (name, mode, size) ->
    len operands = size - 1 ->
    step (pre ++ op :: operands ++ post) base (len pre)
    = Ok (instr_line (base + len pre)
            (join_space (map (fun b => pct_02X (byte_val b)) (op :: operands)))
            name
            (fmt_operand mode (operand_of operands) (base + len pre)),
          size).
Proof.
  intros pre operands post op base name mode size Hop Hlen.
  pose proof (OPCODES_size _ _ _ _ Hop) as Hsize.
  change (pre ++ op :: operands ++ post)
    with (pre ++ (op :: operands) ++ post).
  pose proof (byte_at_app_middle pre (op :: operands) post 0 op eq_refl) as H0.
  change (Z.of_nat 0) with 0 in H0. rewrite Z.add_0_r in H0.
  pose proof (slice_app_middle pre (op :: operands) post) as Hs.
  assert (Hmid : len (op :: operands) = size)
    by (unfold len in *; simpl length; lia).
  rewrite Hmid in Hs.
  unfold step. rewrite H0, bind_Ok_l, Hop, Hs.
  assert (Hval : operand_val (pre ++ (op :: operands) ++ post) (len pre) size
                 = Ok (operand_of operands)).
  { unfold operand_val.
    destruct operands as [|b1 [|b2 [|b3 rest]]]; unfold len in Hlen;
      simpl length in Hlen.
    - replace size with 1 by lia. reflexivity.
    - replace size with 2 by lia.
      change (2 =? 1) with false. change (2 =? 2) with true. cbv iota.
      exact (byte_at_app_middle pre [op; b1] post 1 b1 eq_refl).
    - replace size with 3 by lia.
      change (3 =? 1) with false. change (3 =? 2) with false. cbv iota.
      pose proof (byte_at_app_middle pre [op; b1; b2] post 1 b1 eq_refl) as H1.
      pose proof (byte_at_app_middle pre [op; b1; b2] post 2 b2 eq_refl) as H2.
      change (Z.of_nat 1) with 1 in H1. change (Z.of_nat 2) with 2 in H2.
      rewrite H1, bind_Ok_l, H2, bind_Ok_l. unfold mret, res_ret, operand_of.
      now rewrite little_endian.
    - lia. }
  rewrite Hval, bind_Ok_l. reflexivity.
Qed.

Lemma step_whole_instruction_witness :
  step ([xea] ++ xbd :: [x34; x12] ++ [xea]) 0x8000 (len [xea])
  = Ok ("$8001: BD 34 12  LDA $1234,X", 3).
Proof.
  exact (step_whole_instruction [xea] [x34; x12] [xea] xbd 0x8000
           "LDA" "abx" 3 eq_refl eq_refl).
Defined.

End WholeInstruction.

Section WholeRun.

Import Disasm.

Lemma byte_at_Ok_range (data : list byte) (i v : Z) :
  byte_at data i = Ok v -> - len data <= i < len data.
Proof.
  intros H. apply byte_at_Ok in H as (b & Hb & _).
  eapply getitem_Ok_range; eassumption.
Qed.

Lemma byte_at_Raise (data : list byte) (i : Z) (e : exn) :
  0 <= i -> byte_at data i = Raise e -> len data <= i.
Proof.
  intros Hi H. destruct (Z.le_gt_cases (len data) i) as [|Hlt]; [assumption|].
  destruct (getitem_in_range data i) as [b Hb]; [lia|].
  unfold byte_at in H. rewrite Hb in H. discriminate.
Qed.

(** A pass that succeeds at a non-negative offset read the whole
    instruction inside the buffer. *)
Lemma step_Ok_in_buffer (data : list byte) (base i : Z) (line : string)
    (size : Z) :
  0 <= i -> step data base i = Ok (line, size) -> i + size <= len data.
Proof.
  intros Hi H. unfold step in H.
  apply bind_Ok in H as (op & Hop & H). apply byte_at_Ok_range in Hop.
  destruct (OPCODES !! op) as [[[name mode] sz]|] eqn:E.
  - apply OPCODES_size in E.
    apply bind_Ok in H as (val & Hval & H).
    unfold mret, res_ret in H. injection H as _ <-.
    unfold operand_val in Hval.
    destruct (Z.eqb_spec sz 1); [lia|].
    destruct (Z.eqb_spec sz 2).
    + apply byte_at_Ok_range in Hval. lia.
    + apply bind_Ok in Hval as (lo & _ & Hval).
      apply bind_Ok in Hval as (hi & Hhi & _).
      apply byte_at_Ok_range in Hhi. lia.
  - apply bind_Ok in H as (b & _ & H).
    unfold mret, res_ret in H. injection H as _ <-. lia.
Qed.

(** A pass that raises inside the buffer stands on a defined opcode whose
    operand bytes reach past the end of the buffer. *)
Lemma step_Raise_truncated (data : list byte) (base i : Z) (e : exn) :
  0 <= i < len data -> step data base i = Raise e ->
  exists (b : byte) (name mode : string) (size : Z),
    getitem data i = Ok b
    /\ OPCODES !! byte_val b = Some (name, mode, size)
    /\ len data < i + size.
Proof.
  intros Hi H. unfold step, byte_at in H.
  destruct (getitem_in_range data i) as [b Hb]; [lia|].
  rewrite Hb, bind_Ok_l in H. unfold mret at 1, res_ret at 1 in H.
  rewrite bind_Ok_l in H.
  destruct (OPCODES !! byte_val b) as [[[name mode] sz]|] eqn:E.
  - exists b, name, mode, sz. split; [assumption|]. split; [exact E|].
    pose proof (OPCODES_size _ _ _ _ E) as Hsz.
    destruct (operand_val data i sz) as [val|e'] eqn:Hval; [discriminate|].
    unfold operand_val in Hval.
    destruct (Z.eqb_spec sz 1); [discriminate|].
    destruct (Z.eqb_spec sz 2).
    + apply byte_at_Raise in Hval; lia.
    + destruct (byte_at data (i + 1)) as [lo|e1] eqn:Hlo.
      * rewrite bind_Ok_l in Hval.
        destruct (byte_at data (i + 2)) as [hi|e2] eqn:Hhi; [discriminate|].
        apply byte_at_Raise in Hhi; lia.
      * apply byte_at_Raise in Hlo; lia.
  - discriminate.
Qed.

(** What the loop keeps, whatever the arguments: it appends to what was
    printed; the cursor it ends on is the start advanced by the sizes of
    the instructions printed; each printed line used at least one byte of
    the range; it ends normally at or past the nearer bound, and by an
    exception before it. *)
Lemma disasm_loop_run (fuel : nat) :
  forall (data : list byte) (base stop i : Z) (out : list string) (r : run),
  disasm_loop fuel data base stop i out = Some r ->
  exists new : list string,
    printed r = out ++ new
    /\ cursor r = cursor_after (size_at data) (length new) i
    /\ Z.of_nat (length new) <= Z.max 0 (Z.min stop (len data) - i)
    /\ match raised r with
       | None => Z.min stop (len data) <= cursor r
       | Some _ => cursor r < Z.min stop (len data)
       end.
Proof.
  induction fuel as [|fuel IH]; intros data base stop i out r; simpl.
  - destruct (Z.ltb_spec i stop) as [Hs|Hs],
      (Z.ltb_spec i (len data)) as [Hl|Hl]; simpl;
      try discriminate; intros [= <-]; exists []; simpl;
      rewrite app_nil_r; repeat split; lia.
  - destruct (Z.ltb_spec i stop) as [Hs|Hs],
      (Z.ltb_spec i (len data)) as [Hl|Hl]; simpl;
      try (intros [= <-]; exists []; simpl;
           rewrite app_nil_r; repeat split; lia).
    destruct (step data base i) as [[line size]|e] eqn:Hstep.
    + intros H. apply IH in H as (new & Hp & Hc & Hn & Hr).
      pose proof (step_advances _ _ _ _ _ Hstep) as Hsize.
      exists (line :: new). split; [now rewrite Hp, <- app_assoc|].
      split; [simpl; now rewrite <- (step_size_at _ _ _ _ _ Hstep)|].
      split; [simpl length; lia|].
      destruct (raised r); lia.
    + intros [= <-]. exists []. simpl. rewrite app_nil_r.
      repeat split; lia.
Qed.

(** From a non-negative offset the cursor stays non-negative; a normal end
    leaves it inside the buffer, at most two bytes past the nearer bound;
    an exception leaves it on a truncated instruction. *)
Lemma disasm_loop_inside (fuel : nat) :
  forall (data : list byte) (base stop i : Z) (out : list string) (r : run),
  disasm_loop fuel data base stop i out = Some r -> 0 <= i ->
  i <= cursor r
  /\ match raised r with
     | None => (i <= len data -> cursor r <= len data)
               /\ cursor r <= Z.max i (Z.min stop (len data) + 2)
     | Some _ =>
         cursor r < len data
         /\ exists (b : byte) (name mode : string) (size : Z),
              getitem data (cursor r) = Ok b
              /\ OPCODES !! byte_val b = Some (name, mode, size)
              /\ len data < cursor r + size
     end.
Proof.
  induction fuel as [|fuel IH]; intros data base stop i out r; simpl.
  - destruct (Z.ltb_spec i stop) as [Hs|Hs],
      (Z.ltb_spec i (len data)) as [Hl|Hl]; simpl;
      try discriminate; intros [= <-] Hi; simpl; repeat split; lia.
  - destruct (Z.ltb_spec i stop) as [Hs|Hs],
      (Z.ltb_spec i (len data)) as [Hl|Hl]; simpl;
      try (intros [= <-] Hi; simpl; repeat split; lia).
    destruct (step data base i) as [[line size]|e] eqn:Hstep.
    + intros H Hi.
      pose proof (step_advances _ _ _ _ _ Hstep) as Hsize.
      pose proof (step_Ok_in_buffer _ _ _ _ _ Hi Hstep) as Hin.
      apply IH in H as (Hc & Hr); [|lia].
      split; [lia|]. destruct (raised r); [exact Hr|].
      destruct Hr as [Hlen Hover]. split; [intros _; apply Hlen; lia|]. lia.
    + intros [= <-] Hi. simpl. split; [lia|]. split; [assumption|].
      eapply step_Raise_truncated; [lia | eassumption].
Qed.

(** X5: An exception leaves [disasm] only on a truncated instruction: when a
    call that starts at or after [base] ends by an exception, the cursor
    stands inside the buffer and the range, on a defined opcode whose size
    reaches past the end of the buffer. *)
Theorem raise_means_truncated :
  forall (data : list byte) (base : Z) (start end_ : option Z) (r : run)
         (e : exn),
    disasm data base start end_ = Some r ->
    base <= default base start ->
    raised r = Some e ->
    0 <= cursor r < len data
    /\ cursor r < default (base + len data) end_ - base
    /\ exists (b : byte) (name mode : string) (size : Z),
         getitem data (cursor r) = Ok b
         /\ OPCODES !! byte_val b = Some (name, mode, size)
         /\ len data < cursor r + size.
Proof.
  intros data base start end_ r e Hr Hstart He. unfold disasm in Hr.
  pose proof (disasm_loop_run _ _ _ _ _ _ _ Hr) as (new & _ & _ & _ & Hb).
  apply disasm_loop_inside in Hr as [Hc Hin]; [|lia].
  rewrite He in Hb, Hin. destruct Hin as [Hlen Htr].
  split; [lia|]. split; [lia|]. exact Htr.
Qed.

Lemma raise_means_truncated_witness :
  exists (b : byte) (name mode : string) (size : Z),
    getitem [xea; x4c; x00] 1 = Ok b
    /\ OPCODES !! byte_val b = Some (name, mode, size)
    /\ len [xea; x4c; x00] < 1 + size.
Proof.
  refine (proj2 (proj2 (raise_means_truncated [xea; x4c; x00] 0x8000 None None
            (Run ["$8000: EA        NOP"] 1 (Some IndexError)) IndexError
            eq_refl _ eq_refl))).
  simpl. lia.
Defined.



(** X7: Every printed line costs at least one byte of the range: a call prints
    at most as many lines as there are bytes between the start and the
    nearer bound, and the cursor it ends on is the start advanced by the
    sizes of the instructions printed. *)
Theorem lines_cost_bytes :
  forall (data : list byte) (base : Z) (start end_ : option Z) (r : run),
    disasm data base start end_ = Some r ->
    let i := default base start - base in
    let bound := Z.min (default (base + len data) end_ - base) (len data) in
    Z.of_nat (length (printed r)) <= Z.max 0 (bound - i)
    /\ cursor r = cursor_after (size_at data) (length (printed r)) i.
Proof.
  intros data base start end_ r Hr i bound. unfold disasm in Hr.
  apply disasm_loop_run in Hr as (new & Hp & Hc & Hn & _).
  simpl in Hp. rewrite Hp. split; assumption.
Qed.

Lemma lines_cost_bytes_witness :
  Z.of_nat 2 <= Z.max 0 (Z.min (0x8000 + 3 - 0x8000) 3 - (0x8000 - 0x8000))
  /\ 3 = cursor_after (size_at [xa9; x05; xea]) 2 (0x8000 - 0x8000).
Proof.
  exact (lines_cost_bytes [xa9; x05; xea] 0x8000 None None
           (Run ["$8000: A9 05     LDA #$05"; "$8002: EA        NOP"] 3 None)
           eq_refl).
Defined.

Lemma disasm_total (data : list byte) (base : Z) (start end_ : option Z) :
  exists r, disasm data base start end_ = Some r.
Proof. unfold disasm. apply disasm_loop_enough. lia. Qed.

Lemma disasm_loop_agree (f1 f2 : nat) (data : list byte) (base stop i : Z)
    (out : list string) (r1 r2 : run) :
  disasm_loop f1 data base stop i out = Some r1 ->
  disasm_loop f2 data base stop i out = Some r2 -> r1 = r2.
Proof.
  intros H1 H2.
  apply (disasm_loop_more f1 (Nat.max f1 f2)) in H1; [|lia].
  apply (disasm_loop_more f2 (Nat.max f1 f2)) in H2; [|lia].
  congruence.
Qed.

(** What was printed before the loop only sits in front of what the loop
    prints. *)
Lemma disasm_loop_out (fuel : nat) :
  forall (data : list byte) (base stop i : Z) (out out' : list string)
         (r : run),
  disasm_loop fuel data base stop i out = Some r ->
  exists new, printed r = out ++ new
    /\ disasm_loop fuel data base stop i out'
       = Some (Run (out' ++ new) (cursor r) (raised r)).
Proof.
  induction fuel as [|fuel IH]; intros data base stop i out out' r; simpl.
  - destruct ((i <? stop) && (i <? len data)); [discriminate|].
    intros [= <-]. exists []. simpl. now rewrite !app_nil_r.
  - destruct ((i <? stop) && (i <? len data)).
    + destruct (step data base i) as [[line size]|e].
      * intros H. apply (IH _ _ _ _ _ (out' ++ [line])) in H
          as (new & Hp & Hrun).
        exists (line :: new). rewrite Hp, Hrun, <- !app_assoc. auto.
      * intros [= <-]. exists []. simpl. now rewrite !app_nil_r.
    + intros [= <-]. exists []. simpl. now rewrite !app_nil_r.
Qed.

(** A normal run up to [stop], carried on from where it ended up to a later
    [stop'], is a run up to [stop']. *)
Lemma disasm_loop_extend (fuel : nat) :
  forall (data : list byte) (base stop stop' i c : Z)
         (out p : list string) (f' : nat) (r' : run),
  disasm_loop fuel data base stop i out = Some (Run p c None) ->
  stop <= stop' ->
  disasm_loop f' data base stop' c p = Some r' ->
  exists f'', disasm_loop f'' data base stop' i out = Some r'.
Proof.
  induction fuel as [|fuel IH]; intros data base stop stop' i c out p f' r';
    simpl.
  - destruct ((i <? stop) && (i <? len data)); [discriminate|].
    intros [= <- <-] _ H. eauto.
  - destruct (Z.ltb_spec i stop) as [Hs|Hs],
      (Z.ltb_spec i (len data)) as [Hl|Hl]; simpl;
      try (intros [= <- <-] _ H; eauto; fail).
    destruct (step data base i) as [[line size]|e] eqn:Hstep; [|discriminate].
    intros H Hle H'.
    destruct (IH _ _ _ _ _ _ _ _ _ _ H Hle H') as [f'' Hf].
    exists (S f''). simpl.
    destruct (Z.ltb_spec i stop'), (Z.ltb_spec i (len data)); try lia.
    simpl. now rewrite Hstep.
Qed.

(** X8: Restarting: a range decoded up to [mid] without an exception and then
    from where that run stopped up to [end_] gives, one after the other,
    the lines of the range decoded up to [end_] in one call, and ends the
    same way. *)
Theorem disasm_restart :
  forall (data : list byte) (base start mid end_ : Z) (r1 : run),
    disasm data base (Some start) (Some mid) = Some r1 ->
    raised r1 = None ->
    mid <= end_ ->
    exists r2 : run,
      disasm data base (Some (base + cursor r1)) (Some end_) = Some r2
      /\ disasm data base (Some start) (Some end_)
         = Some (Run (printed r1 ++ printed r2) (cursor r2) (raised r2)).
Proof.
  intros data base start mid end_ [p c e] H1 He Hle. simpl in He. subst e.
  simpl cursor. simpl printed.
  destruct (disasm_total data base (Some (base + c)) (Some end_)) as [r2 H2].
  exists r2. split; [assumption|].
  destruct (disasm_total data base (Some start) (Some end_)) as [r Hr].
  rewrite Hr. f_equal.
  unfold disasm in H1, H2, Hr. simpl default in *.
  replace (base + c - base) with c in H2 by lia.
  destruct (disasm_loop_out _ _ _ _ _ _ p _ H2) as (new & Hp & H2').
  simpl in Hp. rewrite <- Hp in H2'.
  destruct (disasm_loop_extend _ _ _ (mid - base) (end_ - base) _ _ _ _ _ _
              H1 ltac:(lia) H2') as [f'' Hf].
  eapply disasm_loop_agree; eassumption.
Qed.

Lemma disasm_restart_witness :
  exists r2 : run,
    disasm [xa9; x05; xea; x60] 0x8000 (Some (0x8000 + 2)) (Some 0x8004)
    = Some r2
    /\ disasm [xa9; x05; xea; x60] 0x8000 (Some 0x8000) (Some 0x8004)
       = Some (Run (["$8000: A9 05     LDA #$05"] ++ printed r2)
                 (cursor r2) (raised r2)).
Proof.
  refine (disasm_restart [xa9; x05; xea; x60] 0x8000 0x8000 0x8001 0x8004
            (Run ["$8000: A9 05     LDA #$05"] 2 None) eq_refl eq_refl _).
  lia.
Defined.

(** Every line the loop prints was printed with the cursor below both
    bounds. *)
Lemma disasm_loop_below (fuel : nat) :
  forall (data : list byte) (base stop i : Z) (out : list string) (r : run),
  disasm_loop fuel data base stop i out = Some r ->
  exists new, printed r = out ++ new /\
    forall k : nat, (k < length new)%nat ->
      i <= cursor_after (size_at data) k i < Z.min stop (len data).
Proof.
  induction fuel as [|fuel IH]; intros data base stop i out r; simpl.
  - destruct ((i <? stop) && (i <? len data)); [discriminate|].
    intros [= <-]. exists []. simpl. rewrite app_nil_r.
    split; [reflexivity | intros k Hk; lia].
  - destruct (Z.ltb_spec i stop) as [Hs|Hs],
      (Z.ltb_spec i (len data)) as [Hl|Hl]; simpl;
      try (intros [= <-]; exists []; simpl; rewrite app_nil_r;
           split; [reflexivity | intros k Hk; lia]).
    destruct (step data base i) as [[line size]|e] eqn:Hstep.
    + intros H. apply IH in H as (new & Hp & Hk).
      pose proof (step_advances _ _ _ _ _ Hstep) as Hsize.
      exists (line :: new). split; [now rewrite Hp, <- app_assoc|].
      intros [|k] Hlt; simpl in *; [lia|].
      rewrite <- (step_size_at _ _ _ _ _ Hstep).
      specialize (Hk k ltac:(lia)). lia.
    + intros [= <-]. exists []. simpl. rewrite app_nil_r.
      split; [reflexivity | intros k Hk; lia].
Qed.

Lemma printed_address (data : list byte) (base : Z) (start end_ : option Z)
    (r : run) (k : nat) (line : string) :
  disasm data base start end_ = Some r ->
  printed r !! k = Some line ->
  let a := base + cursor_after (size_at data) k (default base start - base) in
  at_address a line
  /\ default base start <= a < default (base + len data) end_
  /\ a < base + len data.
Proof.
  intros Hr Hk a. unfold disasm in Hr.
  pose proof (disasm_loop_addresses _ _ _ _ _ _ _ Hr) as (new & Hp & Ha).
  pose proof (disasm_loop_below _ _ _ _ _ _ _ Hr) as (new' & Hp' & Hb).
  simpl in Hp, Hp'. rewrite Hp in Hk, Hp'. subst new'.
  split; [now apply Ha|].
  specialize (Hb k (lookup_lt_Some _ _ _ Hk)). unfold a. lia.
Qed.

(** X9: The address of every printed line lies in the range asked for and in
    the buffer: at or after the start, before the end address and before
    [base + len(data)]. *)
Theorem printed_addresses_in_range :
  forall (data : list byte) (base : Z) (start end_ : option Z) (r : run)
         (k : nat) (line : string),
    disasm data base start end_ = Some r ->
    printed r !! k = Some line ->
    let a := base + cursor_after (size_at data) k (default base start - base) in
    at_address a line
    /\ default base start <= a < default (base + len data) end_
    /\ a < base + len data.
Proof. exact printed_address. Qed.

Lemma printed_addresses_in_range_witness :
  at_address (0x8000 + cursor_after (size_at [xa9; x05; xea]) 1
                         (0x8000 - 0x8000)) "$8002: EA        NOP"
  /\ 0x8000 <= 0x8000 + cursor_after (size_at [xa9; x05; xea]) 1
                          (0x8000 - 0x8000) < 0x8000 + len [xa9; x05; xea]
  /\ 0x8000 + cursor_after (size_at [xa9; x05; xea]) 1 (0x8000 - 0x8000)
     < 0x8000 + len [xa9; x05; xea].
Proof.
  exact (printed_addresses_in_range [xa9; x05; xea] 0x8000 None None
           (Run ["$8000: A9 05     LDA #$05"; "$8002: EA        NOP"] 3 None)
           1%nat "$8002: EA        NOP" eq_refl eq_refl).
Defined.

Lemma len_slice_le {A : Type} (l : list A) (lo hi : Z) :
  0 <= lo <= hi -> len (slice l lo hi) <= hi - lo.
Proof.
  intros H. unfold slice, len. rewrite length_take. unfold clip.
  destruct (Z.ltb_spec lo 0), (Z.ltb_spec hi 0); lia.
Qed.

(** X10: [main] with no range given prints only addresses from $8000 to $FFFF,
    whatever the size of the file: the PRG slice is 32 KiB at most. *)
Theorem main_addresses_16_bit :
  forall (rom : list byte) (r : run) (k : nat) (line : string),
    main rom None None = Some r ->
    printed r !! k = Some line ->
    exists a : Z, 0x8000 <= a <= 0xffff /\ at_address a line.
Proof.
  intros rom r k line Hr Hk. unfold main in Hr. simpl default in Hr.
  pose proof (printed_address _ _ _ _ _ _ _ Hr Hk) as (Ha & Hs & He).
  simpl default in *.
  pose proof (len_slice_le rom 16 (16 + 0x8000) ltac:(lia)).
  eexists. split; [|exact Ha]. lia.
Qed.

Lemma main_addresses_16_bit_witness :
  exists a : Z, 0x8000 <= a <= 0xffff /\ at_address a "$8000: EA        NOP".
Proof.
  exact (main_addresses_16_bit (replicate 16 x00 ++ [xea])
           (Run ["$8000: EA        NOP"] 1 None) 0%nat
           "$8000: EA        NOP" eq_refl eq_refl).
Defined.

End WholeRun.

(* ===================================================================== *)
(** ** The two scripts' tables, entry by entry *)
(* ===================================================================== *)

Section TablesAgree.

Import CompareRom.

Lemma In_existsb_Z (x : Z) (l : list Z) :
  existsb (Z.eqb x) l = true <-> In x l.
Proof.
  rewrite existsb_exists. split.
  - intros (y & Hy & Heq). apply Z.eqb_eq in Heq. now subst.
  - intros H. exists x. split; [assumption | apply Z.eqb_refl].
Qed.

Lemma oplen_table_size (b : byte) :
  ~ In (byte_val b) drifted ->
  getitem oplen (byte_val b) = Ok (table_size (byte_val b)).
Proof.
  intros Hnot.
  assert (H : forallb agree_or_drifted all_bytes = true)
    by (vm_compute; reflexivity).
  pose proof (for_all_bytes _ H b) as Hagree. unfold agree_or_drifted in Hagree.
  destruct (getitem oplen (byte_val b)) as [n|]; [|discriminate].
  apply orb_true_iff in Hagree as [Heq | Hin].
  - apply Z.eqb_eq in Heq. now subst n.
  - apply In_existsb_Z in Hin. contradiction.
Qed.

Lemma length_at_size_at (data : list byte) (i : Z) (b : byte) :
  getitem data i = Ok b -> ~ In (byte_val b) drifted ->
  length_at data i = size_at data i.
Proof.
  intros Hb Hnot. unfold length_at, size_at.
  rewrite Hb, (oplen_table_size b Hnot). unfold table_size.
  now destruct (Disasm.OPCODES !! byte_val b) as [[[name mode] size]|].
Qed.

(** X11: Apart from the opcodes of [drifted], the two disassemblers take the
    same number of bytes at every byte value, with or without an entry in
    [OPCODES]. *)
Theorem lengths_agree_elsewhere :
  forall (data : list byte) (i : Z) (b : byte),
    getitem data i = Ok b ->
    ~ In (byte_val b) drifted ->
    length_at data i = size_at data i
    /\ getitem oplen (byte_val b) = Ok (table_size (byte_val b)).
Proof.
  intros data i b Hb Hnot.
  assert (H : forallb agree_or_drifted all_bytes = true)
    by (vm_compute; reflexivity).
  pose proof (for_all_bytes _ H b) as Hagree. unfold agree_or_drifted in Hagree.
  unfold length_at, size_at. rewrite Hb.
  destruct (getitem oplen (byte_val b)) as [n|]; [|discriminate].
  apply orb_true_iff in Hagree as [Heq | Hin].
  - apply Z.eqb_eq in Heq. subst n. unfold table_size.
    split; [|reflexivity].
    now destruct (Disasm.OPCODES !! byte_val b) as [[[name mode] size]|].
  - apply In_existsb_Z in Hin. contradiction.
Qed.

Lemma lengths_agree_elsewhere_witness :
  length_at [xea; xbd; x00; x90] 1 = size_at [xea; xbd; x00; x90] 1
  /\ getitem oplen (byte_val xbd) = Ok (table_size (byte_val xbd)).
Proof.
  apply (lengths_agree_elsewhere [xea; xbd; x00; x90] 1 xbd).
  - reflexivity.
  - vm_compute. intuition discriminate.
Defined.

(** X12: [names] follows [OPCODES]: an opcode of [OPCODES] has a name exactly
    when it is not one of the opcodes of [drifted], and the name is then
    the mnemonic of [disasm.py] followed by the ending that stands for the
    addressing mode. *)
Theorem names_follow_opcodes :
  forall (op : Z) (name mode : string) (size : Z),
    Disasm.OPCODES !! op = Some (name, mode, size) ->
    (In op drifted /\ names !! op = None)
    \/ (~ In op drifted /\ names !! op = Some (name +:+ mode_suffix mode)).
Proof.
  intros op name mode size Hop. apply OPCODES_lookup_item in Hop.
  assert (Hall : forallb name_agrees Disasm.OPCODES_items = true)
    by (vm_compute; reflexivity).
  rewrite forallb_forall in Hall. apply Hall in Hop. unfold name_agrees in Hop.
  destruct (names !! op) as [n|].
  - right. apply andb_true_iff in Hop as [Hn Hd].
    apply String.eqb_eq in Hn. subst n. split; [|reflexivity].
    intros Hin. apply In_existsb_Z in Hin. rewrite Hin in Hd. discriminate.
  - left. split; [now apply In_existsb_Z | reflexivity].
Qed.

Lemma names_follow_opcodes_witness :
  (In 0xb6 drifted /\ names !! 0xb6 = None)
  \/ (~ In 0xb6 drifted /\ names !! 0xb6 = Some ("LDX" +:+ mode_suffix "zpy")).
Proof. exact (names_follow_opcodes 0xb6 "LDX" "zpy" 2 eq_refl). Defined.

(** X13: [names] has no opcode that [OPCODES] lacks. *)
Theorem names_within_opcodes :
  forall (op : Z) (n : string),
    names !! op = Some n -> exists e, Disasm.OPCODES !! op = Some e.
Proof.
  intros op n H.
  apply (elem_of_list_to_map_2 (M := gmap Z)), list_elem_of_In in H.
  assert (Hall : forallb named_in_opcodes names_items = true)
    by (vm_compute; reflexivity).
  rewrite forallb_forall in Hall. apply Hall in H.
  unfold named_in_opcodes in H. change ((op, n).1) with op in H.
  destruct (Disasm.OPCODES !! op) as [e|]; [eauto | discriminate].
Qed.

Lemma names_within_opcodes_witness :
  exists e, Disasm.OPCODES !! 0x6c = Some e.
Proof. exact (names_within_opcodes 0x6c "JMP_i" eq_refl). Defined.

Lemma getitem_app_r {A : Type} (pre l : list A) (c : Z) :
  0 <= c -> getitem (pre ++ l) (len pre + c) = getitem l c.
Proof.
  intros Hc. unfold getitem. pose proof (len_nonneg pre).
  destruct (Z.leb_spec 0 (len pre + c)); [|lia].
  destruct (Z.leb_spec 0 c); [|lia].
  replace (Z.to_nat (len pre + c)) with (length pre + Z.to_nat c)%nat
    by (unfold len; lia).
  now rewrite lookup_app_r, Nat.add_comm, Nat.add_sub by lia.
Qed.

Lemma same_cursor (header prg : list byte) (k : nat) :
  forall i : Z,
    (forall j : nat, (j < k)%nat ->
       exists b : byte,
         0 <= cursor_after (size_at prg) j i
         /\ getitem prg (cursor_after (size_at prg) j i) = Ok b
         /\ ~ In (byte_val b) drifted) ->
    cursor_after (length_at (header ++ prg)) k (len header + i)
    = len header + cursor_after (size_at prg) k i.
Proof.
  induction k as [|k IH]; intros i Hvisited; [reflexivity|]. simpl.
  destruct (Hvisited 0%nat ltac:(lia)) as (b & Hi & Hb & Hnot). simpl in Hi, Hb.
  assert (Hlen : length_at (header ++ prg) (len header + i) = size_at prg i).
  { rewrite <- (length_at_size_at prg i b Hb Hnot).
    unfold length_at. now rewrite getitem_app_r. }
  rewrite Hlen, <- Z.add_assoc. apply IH.
  intros j Hj. exact (Hvisited (S j) ltac:(lia)).
Qed.

(** X14: The two disassemblers walk the same instruction boundaries as long as
    they meet none of the opcodes of [drifted]: if the first [k]
    instructions that [disasm.py] sees from offset [i] of the PRG bytes
    start on such bytes, then [compare_rom.py], started at the same place
    of the file with its header, reaches after [k] instructions the same
    place, and its address [0x8000 + (c - 16)] for a 16-byte header is the
    address [0x8000 + c] of [disasm.py]. *)
Theorem same_boundaries :
  forall (header prg : list byte) (i : Z) (k : nat),
    len header = 16 ->
    (forall j : nat, (j < k)%nat ->
       exists b : byte,
         0 <= cursor_after (size_at prg) j i
         /\ getitem prg (cursor_after (size_at prg) j i) = Ok b
         /\ ~ In (byte_val b) drifted) ->
    0x8000 + (cursor_after (length_at (header ++ prg)) k (16 + i) - 16)
    = 0x8000 + cursor_after (size_at prg) k i.
Proof.
  intros header prg i k Hh Hvisited. rewrite <- Hh at 1.
  rewrite same_cursor by assumption. lia.
Qed.

Lemma same_boundaries_witness :
  0x8000 + (cursor_after (length_at (replicate 16 x00 ++ [xa9; x05; xea]))
              1 (16 + 0) - 16)
  = 0x8000 + cursor_after (size_at [xa9; x05; xea]) 1 0.
Proof.
  apply (same_boundaries (replicate 16 x00) [xa9; x05; xea] 0 1).
  - reflexivity.
  - intros [|j] Hj; [|lia]. exists xa9. split; [simpl; lia|].
    split; [reflexivity|]. vm_compute. intuition discriminate.
Defined.

End TablesAgree.

(* ===================================================================== *)
(** ** scripts/compare_rom.py: disasm as a whole *)
(* ===================================================================== *)

Section CompareRun.

Import CompareRom.

Lemma getitem_below {A : Type} (l : list A) (i : Z) :
  i < - len l -> getitem l i = Raise IndexError.
Proof.
  intros Hi. unfold getitem. pose proof (len_nonneg l).
  destruct (Z.leb_spec 0 i); [lia|].
  destruct (Z.leb_spec (- len l) i); [lia | reflexivity].
Qed.

(** X15: [disasm] raises in one case only: a start more than [len(rom)] below
    zero with a positive count, where the first subscript is out of range.
    Otherwise, negative starts that wrap around included, it returns its
    list. *)
Theorem compare_disasm_raises_iff :
  forall (rom : list byte) (start_file count : Z),
    (start_file < - len rom /\ 0 < count ->
     disasm rom start_file count = Some (Raise IndexError))
    /\ (~ (start_file < - len rom /\ 0 < count) ->
        exists lines, disasm rom start_file count = Some (Ok lines)).
Proof.
  intros rom start_file count. pose proof (len_nonneg rom) as Hlen.
  unfold disasm. split.
  - intros [Hstart Hcount].
    destruct (Z.to_nat (Z.min (start_file + count) (len rom) - start_file))
      as [|fuel] eqn:Hfuel; [lia|].
    simpl. destruct (Z.ltb_spec start_file
                       (Z.min (start_file + count) (len rom))); [|lia].
    unfold step. rewrite (getitem_below rom start_file Hstart). reflexivity.
  - intros Hnot.
    destruct (Z.le_gt_cases (- len rom) start_file).
    + apply compare_loop_returns; lia.
    + assert (count <= 0) by lia.
      destruct (Z.to_nat _); simpl;
        destruct (Z.ltb_spec start_file
                    (Z.min (start_file + count) (len rom))); try lia; eauto.
Qed.

Lemma compare_disasm_raises_iff_witness :
  disasm [xea; xea] (-3) 1 = Some (Raise IndexError)
  /\ exists lines, disasm [xea; xa9] (-2) 5 = Some (Ok lines).
Proof.
  split.
  - apply (proj1 (compare_disasm_raises_iff [xea; xea] (-3) 1)).
    vm_compute. split; reflexivity.
  - apply (proj2 (compare_disasm_raises_iff [xea; xa9] (-2) 5)).
    vm_compute. intros [H _]. discriminate.
Defined.

(** What the loop keeps: it appends to [lines]; each pair appended stands
    for an instruction that lies wholly between the cursor it started from
    and [end]; there are at most as many of them as bytes in between. *)
Lemma compare_loop_run (fuel : nat) :
  forall (rom : list byte) (end_ i : Z) (lines out : list (Z * string)),
  disasm_loop fuel rom end_ i lines = Some (Ok out) ->
  exists new, out = lines ++ new
    /\ Z.of_nat (length new) <= Z.max 0 (end_ - i)
    /\ forall k : nat, (k < length new)%nat ->
         let c := cursor_after (length_at rom) k i in
         i <= c /\ c + length_at rom c <= end_.
Proof.
  induction fuel as [|fuel IH]; intros rom end_ i lines out; simpl.
  - destruct (Z.ltb_spec i end_); [discriminate|].
    intros [= <-]. exists []. rewrite app_nil_r. simpl.
    split; [reflexivity|]. split; [lia | intros k Hk; lia].
  - destruct (Z.ltb_spec i end_) as [Hlt|Hge];
      [|intros [= <-]; exists []; rewrite app_nil_r; simpl;
        split; [reflexivity|]; split; [lia | intros k Hk; lia]].
    destruct (step rom end_ i) as [[|line n]|e] eqn:Hstep.
    + intros [= <-]. exists []. rewrite app_nil_r. simpl.
      split; [reflexivity|]. split; [lia | intros k Hk; lia].
    + intros H. apply IH in H as (new & Hout & Hn & Hk).
      pose proof (step_append_length _ _ _ _ _ Hstep) as Hlen.
      apply step_append in Hstep as (Heq & _ & Hend). subst n.
      exists (line :: new). split; [now rewrite Hout, <- app_assoc|].
      split; [simpl length; lia|].
      intros [|k] Hlt'; simpl in *; [lia|].
      specialize (Hk k ltac:(lia)). simpl in Hk. lia.
    + discriminate.
Qed.

(** X16: Every pair [disasm] returns stands for an instruction that lies wholly
    inside the range: the [k]-th pair holds the translated running cursor
    [c], and [c] and the bytes of the instruction at [c] are between
    [start_file] and [min(start_file + count, len(rom))]; the list has at
    most as many pairs as the range has bytes. *)
Theorem compare_lines_inside :
  forall (rom : list byte) (start_file count : Z) (lines : list (Z * string)),
    disasm rom start_file count = Some (Ok lines) ->
    let end_ := Z.min (start_file + count) (len rom) in
    Z.of_nat (length lines) <= Z.max 0 (end_ - start_file)
    /\ forall (k : nat) (line : Z * string),
         lines !! k = Some line ->
         let c := cursor_after (length_at rom) k start_file in
         line.1 = 0x8000 + (c - 16)
         /\ start_file <= c /\ c + length_at rom c <= end_.
Proof.
  intros rom start_file count lines Hr end_. unfold disasm in Hr.
  pose proof (compare_loop_addresses _ _ _ _ _ _ Hr) as (new' & Hn' & Ha).
  apply compare_loop_run in Hr as (new & Hn & Hlen & Hk).
  simpl in Hn, Hn'. subst new new'.
  split; [exact Hlen|].
  intros k line Hline c. split; [now apply Ha|].
  apply (Hk k). eapply lookup_lt_Some; eassumption.
Qed.

Lemma compare_lines_inside_witness :
  let rom := replicate 16 x00 ++ [xea; xa9; x05; x4c] in
  let end_ := Z.min (16 + 4) (len rom) in
  Z.of_nat 2 <= Z.max 0 (end_ - 16)
  /\ forall (k : nat) (line : Z * string),
       [(0x8000, "NOP"); (0x8001, "LDA# $05")] !! k = Some line ->
       let c := cursor_after (length_at rom) k 16 in
       line.1 = 0x8000 + (c - 16) /\ 16 <= c /\ c + length_at rom c <= end_.
Proof.
  exact (compare_lines_inside (replicate 16 x00 ++ [xea; xa9; x05; x4c]) 16 4
           [(0x8000, "NOP"); (0x8001, "LDA# $05")] eq_refl).
Defined.

End CompareRun.

(* ===================================================================== *)
(** ** scripts/compare_rom.py: what normalize keeps *)
(* ===================================================================== *)

Section NormalizeKeeps.

Import CompareRom.

Lemma split_wildcard (m : string) :
  In m absolute_names -> split (m +:+ " $????") = [m; "$????"].
Proof.
  intros Hm. change (m +:+ " $????") with (m +:+ " " +:+ "$????").
  apply split_two_words; [now apply absolute_names_words | reflexivity].
Qed.

(** X17: [normalize] keeps the number of words of a text and its first word,
    the mnemonic: it never turns one instruction into another. *)
Theorem normalize_keeps_mnemonic :
  forall x : string,
    length (split (normalize x)) = length (split x)
    /\ head (split (normalize x)) = head (split x).
Proof.
  intros x.
  destruct (normalize_cases x)
    as [H | (m & operand & Hin & Hsplit & _ & _ & H)]; rewrite H.
  - split; reflexivity.
  - rewrite split_wildcard, Hsplit by assumption. split; reflexivity.
Qed.

Lemma hex4_not_wildcard (v : Z) : 0 <= v < 65536 -> pct_04X v <> "????".
Proof.
  intros Hv.
  assert (H : forallb (fun hi => forallb (fun lo =>
                hex4_plain (byte_val lo + 256 * byte_val hi)) all_bytes)
                all_bytes = true) by (vm_compute; reflexivity).
  pose proof (Z.div_mod v 256 ltac:(lia)) as Hdm.
  pose proof (Z.mod_pos_bound v 256 ltac:(lia)) as Hmod.
  destruct (byte_of_val (v mod 256)) as [lo Hlo]; [lia|].
  destruct (byte_of_val (v / 256)) as [hi Hhi]; [lia|].
  pose proof (for_all_bytes _ (for_all_bytes _ H hi) lo) as Hb.
  simpl in Hb. rewrite Hlo, Hhi in Hb.
  replace (v mod 256 + 256 * (v / 256)) with v in Hb by lia.
  unfold hex4_plain in Hb. intros Heq. rewrite Heq in Hb. discriminate.
Qed.

(** The words of a rendered text: the name alone, or the name and an
    operand word made of the dollar sign and two or four digits. *)
Lemma rendered_split (x : string) :
  rendered x ->
  exists n : string,
    is_word n = true
    /\ ((x = n /\ split x = [n])
        \/ exists h : string,
             x = n +:+ " $" +:+ h /\ split x = [n; "$" +:+ h]
             /\ is_word ("$" +:+ h) = true
             /\ (String.length h = 2%nat
                 \/ exists v, 0 <= v < 65536 /\ h = pct_04X v)).
Proof.
  intros Hr. apply rendered_shape in Hr as (b & Hshape).
  exists (mnemonic b). pose proof (mnemonic_word b) as Hn.
  split; [assumption|].
  destruct Hshape as [-> | [(b1 & ->) | (b1 & b2 & ->)]].
  - left. split; [reflexivity | now apply split_one_word].
  - right. exists (pct_02X (byte_val b1)). split; [reflexivity|].
    pose proof (hex2_word b1) as Hb. unfold hex2_ok in Hb.
    apply andb_true_iff in Hb as [Hlen Hnb]. apply Nat.eqb_eq in Hlen.
    destruct (dollar_word _ Hnb) as (Hw & _ & _).
    split; [|split; [assumption | now left]].
    change (mnemonic b +:+ " $" +:+ pct_02X (byte_val b1))
      with (mnemonic b +:+ " " +:+ "$" +:+ pct_02X (byte_val b1)).
    now apply split_two_words.
  - right. pose proof (two_bytes_range b1 b2) as Hv.
    set (v := Z.lor (byte_val b1) (Z.shiftl (byte_val b2) 8)) in *.
    exists (pct_04X v). split; [reflexivity|].
    pose proof (hex4_word v Hv) as Hb. unfold hex4_ok in Hb.
    apply andb_true_iff in Hb as [Hlen Hnb].
    destruct (dollar_word _ Hnb) as (Hw & _ & _).
    split; [|split; [assumption | right; eauto]].
    change (mnemonic b +:+ " $" +:+ pct_04X v)
      with (mnemonic b +:+ " " +:+ "$" +:+ pct_04X v).
    now apply split_two_words.
Qed.

(** A rendered text is never a mnemonic followed by the wildcard. *)
Lemma rendered_not_wildcard (y m : string) :
  rendered y -> In m absolute_names -> y <> m +:+ " $????".
Proof.
  intros Hy Hm Heq. pose proof (split_wildcard m Hm) as Hw.
  rewrite <- Heq in Hw.
  apply rendered_split in Hy as (n & _ & [[_ Hs] | (h & _ & Hs & _ & Hh)]);
    rewrite Hs in Hw.
  - discriminate.
  - injection Hw as _ Hw. change ("" +:+ h) with h in Hw. subst h.
    destruct Hh as [Hlen | (v & Hv & Hh)]; [discriminate|].
    symmetry in Hh. now apply hex4_not_wildcard in Hh.
Qed.

(** A rendered text that [normalize] changes is a listed mnemonic with a
    four-digit operand. *)
Lemma rendered_changed (x : string) :
  rendered x -> normalize x <> x ->
  exists (m : string) (v : Z),
    In m absolute_names /\ 0 <= v < 65536
    /\ x = m +:+ " $" +:+ pct_04X v /\ normalize x = m +:+ " $????".
Proof.
  intros Hr Hne.
  apply rendered_split in Hr as (n & Hn & [[Hx _] | (h & Hx & Hs & _ & Hh)]).
  - subst x. now rewrite normalize_one_word in Hne.
  - destruct Hh as [Hlen | (v & Hv & ->)].
    + exfalso. apply Hne.
      destruct (normalize_cases x)
        as [H | (m & operand & _ & Hs' & _ & Hl & _)]; [assumption|].
      rewrite Hs in Hs'. injection Hs' as _ <-.
      change ("$" +:+ h) with (String "$" h) in Hl. simpl in Hl. lia.
    + subst x. rewrite normalize_absolute in * by assumption.
      destruct (str_in n absolute_names) eqn:Hin; [|contradiction].
      exists n, v. auto using str_in_In.
Qed.

(** X18: [normalize] forgets addresses and nothing else: two texts rendered by
    [disasm] that it makes equal are the same text, or the same listed
    mnemonic with two four-digit operands. *)
Theorem normalize_forgets_only_addresses :
  forall x y : string,
    rendered x -> rendered y -> normalize x = normalize y ->
    x = y
    \/ exists (m : string) (v w : Z),
         In m absolute_names /\ 0 <= v < 65536 /\ 0 <= w < 65536
         /\ x = m +:+ " $" +:+ pct_04X v /\ y = m +:+ " $" +:+ pct_04X w.
Proof.
  intros x y Hx Hy Heq.
  destruct (string_dec (normalize x) x) as [Ex|Nx],
    (string_dec (normalize y) y) as [Ey|Ny].
  - left. congruence.
  - exfalso.
    destruct (rendered_changed y Hy Ny) as (m & w & Hm & _ & _ & Hn).
    apply (rendered_not_wildcard x m Hx Hm). congruence.
  - exfalso.
    destruct (rendered_changed x Hx Nx) as (m & v & Hm & _ & _ & Hn).
    apply (rendered_not_wildcard y m Hy Hm). congruence.
  - right.
    destruct (rendered_changed x Hx Nx) as (m & v & Hm & Hv & Hxe & Hxn).
    destruct (rendered_changed y Hy Ny) as (m' & w & Hm' & Hw & Hye & Hyn).
    assert (m = m').
    { pose proof (split_wildcard m Hm) as H1.
      pose proof (split_wildcard m' Hm') as H2.
      rewrite <- Hxn, Heq, Hyn, H2 in H1. now injection H1 as ->. }
    subst m'. exists m, v, w. auto.
Qed.

Lemma normalize_forgets_only_addresses_witness :
  "JMP $9000" = "JMP $8123"
  \/ exists (m : string) (v w : Z),
       In m absolute_names /\ 0 <= v < 65536 /\ 0 <= w < 65536
       /\ "JMP $9000" = m +:+ " $" +:+ pct_04X v
       /\ "JMP $8123" = m +:+ " $" +:+ pct_04X w.
Proof.
  apply (normalize_forgets_only_addresses "JMP $9000" "JMP $8123").
  - exists (replicate 16 x00 ++ [x4c; x00; x90]), 16, 3, 0x8000,
      [(0x8000, "JMP $9000")].
    split; [reflexivity | left; reflexivity].
  - exists (replicate 16 x00 ++ [x4c; x23; x81]), 16, 3, 0x8000,
      [(0x8000, "JMP $8123")].
    split; [reflexivity | left; reflexivity].
  - reflexivity.
Defined.

End NormalizeKeeps.

(* ===================================================================== *)
(** ** scripts/compare_rom.py: the computations of main *)
(* ===================================================================== *)

Section MainDiffs.

Import CompareRom.

Lemma byte_val_inj (a b : byte) : byte_val a = byte_val b -> a = b.
Proof.
  unfold byte_val. intros H. apply N2Z.inj in H.
  pose proof (Byte.of_to_N a) as Ha. pose proof (Byte.of_to_N b) as Hb.
  rewrite H in Ha. congruence.
Qed.

Lemma seqZ_sorted (k : nat) : forall m, StronglySorted Z.lt (seqZ m (Z.of_nat k)).
Proof.
  induction k as [|k IH]; intros m.
  - rewrite seqZ_nil by lia. constructor.
  - rewrite seqZ_cons by lia.
    replace (Z.pred (Z.of_nat (S k))) with (Z.of_nat k) by lia.
    constructor; [apply IH|].
    apply List.Forall_forall. intros x Hx.
    apply list_elem_of_In, elem_of_seqZ in Hx. lia.
Qed.

(** Over offsets inside both files the comprehension raises nothing; it
    keeps exactly the offsets where the files differ, in the order given. *)
Lemma diffs_over_spec (cc65 ours : list byte) (is_ : list Z) :
  Forall (fun i => 0 <= i < Z.min (len cc65) (len ours)) is_ ->
  exists ds, diffs_over cc65 ours is_ = Ok ds
    /\ Forall (fun d => is_diff cc65 ours d /\ In (offset d) is_) ds
    /\ (forall (i : Z) (a b : byte),
          In i is_ -> cc65 !! Z.to_nat i = Some a ->
          ours !! Z.to_nat i = Some b -> a <> b ->
          In (i, byte_val a, byte_val b) ds)
    /\ (StronglySorted Z.lt is_ -> StronglySorted Z.lt (map offset ds)).
Proof.
  induction is_ as [|i is_ IH]; intros Hall.
  - exists []. simpl. repeat split; try constructor. intros i a b [].
  - apply Forall_cons_1 in Hall as [Hi Hall].
    destruct (IH Hall) as (rest & Hrest & Hd & Hc & Hs). clear IH.
    destruct (lookup_lt_is_Some_2 cc65 (Z.to_nat i)) as [a Ha];
      [unfold len in Hi; lia|].
    destruct (lookup_lt_is_Some_2 ours (Z.to_nat i)) as [b Hb];
      [unfold len in Hi; lia|].
    simpl. rewrite (getitem_lookup cc65 i a), bind_Ok_l by (lia || assumption).
    rewrite (getitem_lookup ours i b), bind_Ok_l by (lia || assumption).
    rewrite Hrest, bind_Ok_l. unfold mret, res_ret.
    assert (Hrest' : Forall (fun d => is_diff cc65 ours d
                                       /\ In (offset d) (i :: is_)) rest).
    { eapply Forall_impl; [exact Hd|]. intros d [? ?]. simpl. auto. }
    destruct (Z.eqb_spec (byte_val a) (byte_val b)) as [Heq|Hne]; simpl.
    + apply byte_val_inj in Heq. subst b.
      exists rest. split; [reflexivity|]. split; [assumption|]. split.
      * intros j x y [<-|Hj] Hx Hy Hxy; [congruence|]. eauto.
      * intros Hsorted. apply StronglySorted_inv in Hsorted as [Hs' _]. auto.
    + exists ((i, byte_val a, byte_val b) :: rest).
      split; [reflexivity|]. split; [|split].
      * constructor; [|assumption]. split; [|left; reflexivity].
        exists a, b. unfold offset. simpl. repeat split; try lia; try assumption.
        congruence.
      * intros j x y [<-|Hj] Hx Hy Hxy.
        -- left. congruence.
        -- right. eauto.
      * intros Hsorted. apply StronglySorted_inv in Hsorted as [Hs' Hlt].
        simpl. constructor; [auto|].
        apply List.Forall_forall. intros o Ho.
        apply in_map_iff in Ho as (d & <- & Hin).
        rewrite List.Forall_forall in Hd, Hlt.
        apply Hlt, (Hd d Hin).
Qed.

Lemma byte_diffs_ok :
  forall cc65 ours : list byte,
    exists ds : list diff,
      byte_diffs cc65 ours = Ok ds
      /\ (forall d : diff, In d ds <-> is_diff cc65 ours d)
      /\ StronglySorted Z.lt (map offset ds).
Proof.
  intros cc65 ours. unfold byte_diffs.
  set (n := Z.min (len cc65) (len ours)).
  assert (Hn : 0 <= n)
    by (pose proof (len_nonneg cc65); pose proof (len_nonneg ours); lia).
  destruct (diffs_over_spec cc65 ours (seqZ 0 n)) as (ds & Hds & Hd & Hc & Hs).
  { apply List.Forall_forall. intros i Hi.
    apply list_elem_of_In, elem_of_seqZ in Hi. fold n. lia. }
  exists ds. split; [assumption|]. split.
  - intros d. split.
    + intros Hin. rewrite List.Forall_forall in Hd. now apply Hd.
    + intros (a & b & Hrange & Ha & Hb & -> & Hne).
      apply Hc; try assumption.
      apply list_elem_of_In, elem_of_seqZ. fold n in Hrange. lia.
  - apply Hs. rewrite <- (Z2Nat.id n) by assumption. apply seqZ_sorted.
Qed.

(** X19: The byte-level comparison never raises. Its result lists, by growing
    offset, exactly the offsets inside both files at which the bytes
    differ, each with the byte of either file. *)
Theorem byte_diffs_spec :
  forall cc65 ours : list byte,
    exists ds : list diff,
      byte_diffs cc65 ours = Ok ds
      /\ (forall d : diff, In d ds <-> is_diff cc65 ours d)
      /\ StronglySorted Z.lt (map offset ds).
Proof. exact byte_diffs_ok. Qed.

(** X20: The three counts [main] prints add up: every difference is counted in
    the header, in the PRG part or in the CHR part, and in one of them
    only. *)
Theorem diffs_partition :
  forall diffs : list diff,
    (length (hdr diffs) + length (prg diffs) + length (chrr diffs))%nat
    = length diffs
    /\ Forall (fun d => offset d < 16) (hdr diffs)
    /\ Forall (fun d => 16 <= offset d < 16 + 32768) (prg diffs)
    /\ Forall (fun d => 16 + 32768 <= offset d) (chrr diffs).
Proof.
  intros diffs. split; [|split; [|split]].
  - induction diffs as [|d diffs IH]; [reflexivity|].
    unfold hdr, prg, chrr in *. simpl.
    destruct (Z.ltb_spec (offset d) 16), (Z.leb_spec 16 (offset d)),
      (Z.ltb_spec (offset d) (16 + 32768)),
      (Z.geb_spec (offset d) (16 + 32768)); simpl; lia.
  - apply List.Forall_forall. intros d Hd. apply filter_In in Hd as [_ Hd]. lia.
  - apply List.Forall_forall. intros d Hd. apply filter_In in Hd as [_ Hd]. lia.
  - apply List.Forall_forall. intros d Hd. apply filter_In in Hd as [_ Hd]. lia.
Qed.

Lemma getitem_last_app {A : Type} (l : list A) (x : A) :
  getitem (l ++ [x]) (-1) = Ok x.
Proof.
  unfold getitem. rewrite len_app. change (len [x]) with 1.
  pose proof (len_nonneg l).
  destruct (Z.leb_spec 0 (-1)); [lia|].
  destruct (Z.leb_spec (- (len l + 1)) (-1)); [|lia].
  replace (Z.to_nat (len l + 1 + -1)) with (length l) by (unfold len; lia).
  now rewrite list_lookup_middle.
Qed.

Lemma getitem_head {A : Type} (x : A) (l : list A) : getitem (x :: l) 0 = Ok x.
Proof. reflexivity. Qed.

Lemma close_snoc (cur : list diff) (c d : diff) :
  close (cur ++ [c]) -> offset d - offset c <= 4 ->
  close ((cur ++ [c]) ++ [d]).
Proof.
  induction cur as [|x cur IH]; simpl; [tauto|].
  destruct cur as [|y cur]; simpl in *; tauto.
Qed.

Lemma last_snoc_diff (l : list diff) (x : diff) : last (l ++ [x]) = Some x.
Proof. apply last_snoc. Qed.

(** The groups the loop adds to [groups]: together they are [current]
    followed by the remaining differences; the first of them begins with
    [current]; none is empty; they are close inside if [current] is, and
    apart from one another. *)
Lemma group_loop_spec (ds : list diff) :
  forall (groups : list (list diff)) (cur : list diff) (c : diff),
  exists (g : list diff) (rest : list (list diff)),
    group_loop groups (cur ++ [c]) ds = Ok (groups ++ g :: rest)
    /\ concat (g :: rest) = (cur ++ [c]) ++ ds
    /\ (exists tl, g = (cur ++ [c]) ++ tl)
    /\ Forall (fun g => g <> []) (g :: rest)
    /\ (close (cur ++ [c]) -> Forall close (g :: rest))
    /\ apart (g :: rest).
Proof.
  induction ds as [|d ds IH]; intros groups cur c.
  - exists (cur ++ [c]), []. simpl. rewrite !app_nil_r.
    split; [reflexivity|]. split; [reflexivity|].
    split; [exists []; now rewrite app_nil_r|].
    split; [constructor; [now destruct cur | constructor]|].
    split; [intros H; constructor; [assumption | constructor] | exact I].
  - simpl. rewrite getitem_last_app, bind_Ok_l.
    destruct (Z.leb_spec (offset d - offset c) 4) as [Hle|Hgt].
    + destruct (IH groups (cur ++ [c]) d)
        as (g & rest & Hrun & Hcat & (tl & Htl) & Hne & Hclose & Hapart).
      exists g, rest. split; [assumption|].
      split; [etransitivity; [exact Hcat | now rewrite <- !app_assoc]|].
      split; [exists (d :: tl); now rewrite Htl, <- !app_assoc|].
      split; [assumption|]. split; [|assumption].
      intros Hc. apply Hclose. now apply close_snoc.
    + destruct (IH (groups ++ [cur ++ [c]]) [] d)
        as (g & rest & Hrun & Hcat & (tl & Htl) & Hne & Hclose & Hapart).
      simpl app in Hrun, Hcat, Htl, Hclose.
      exists (cur ++ [c]), (g :: rest).
      split; [now rewrite Hrun, <- app_assoc|].
      split; [change (concat ((cur ++ [c]) :: g :: rest))
                with ((cur ++ [c]) ++ concat (g :: rest));
              f_equal; exact Hcat|].
      split; [exists []; now rewrite app_nil_r|].
      split; [constructor; [now destruct cur | assumption]|].
      split.
      * intros Hc. constructor; [assumption|]. apply Hclose. exact I.
      * split; [|assumption].
        intros l f Hl Hf. rewrite last_snoc_diff in Hl. injection Hl as <-.
        subst g. simpl in Hf. injection Hf as <-. lia.
Qed.

Lemma group_diffs_ok (diffs : list diff) :
  diffs <> [] ->
  exists groups : list (list diff),
    group_diffs diffs = Ok groups
    /\ concat groups = diffs
    /\ Forall (fun g => g <> [] /\ close g) groups
    /\ apart groups.
Proof.
  intros Hne. destruct diffs as [|d0 ds]; [contradiction|].
  unfold group_diffs. rewrite getitem_head, bind_Ok_l.
  assert (Hs : slice (d0 :: ds) 1 (len (d0 :: ds)) = ds).
  { pose proof (slice_app_middle [d0] ds []) as H.
    rewrite app_nil_r in H. change (len [d0]) with 1 in H.
    replace (len (d0 :: ds)) with (1 + len ds)
      by (unfold len; simpl length; lia).
    exact H. }
  rewrite Hs.
  destruct (group_loop_spec ds [] [] d0)
    as (g & rest & Hrun & Hcat & _ & Hnonempty & Hclose & Hapart).
  simpl app in Hrun, Hcat, Hclose.
  exists (g :: rest). split; [assumption|]. split; [assumption|].
  split; [|assumption].
  specialize (Hclose I).
  rewrite List.Forall_forall in Hnonempty, Hclose.
  apply List.Forall_forall. intros x Hx. split; auto.
Qed.

(** X21: Grouping needs a difference to start from and otherwise never raises:
    on the empty list it raises [IndexError], which is why [main] guards it
    with [if diffs:]. On a non-empty list the groups, one after the other,
    are the list itself; no group is empty; inside a group each difference
    is at most 4 bytes after the one before; and from one group to the next
    the gap is more than 4 bytes. *)
Theorem group_diffs_spec :
  group_diffs [] = Raise IndexError
  /\ forall diffs : list diff,
       diffs <> [] ->
       exists groups : list (list diff),
         group_diffs diffs = Ok groups
         /\ concat groups = diffs
         /\ Forall (fun g => g <> [] /\ close g) groups
         /\ apart groups.
Proof. split; [reflexivity | exact group_diffs_ok]. Qed.

Lemma group_diffs_spec_witness :
  exists groups : list (list diff),
    group_diffs [(1, 0, 1); (3, 0, 1); (8, 0, 1)] = Ok groups
    /\ concat groups = [(1, 0, 1); (3, 0, 1); (8, 0, 1)]
    /\ Forall (fun g => g <> [] /\ close g) groups
    /\ apart groups.
Proof.
  apply (proj2 group_diffs_spec [(1, 0, 1); (3, 0, 1); (8, 0, 1)]).
  discriminate.
Defined.

Lemma max_by_len_spec (groups : list (list diff)) :
  forall best : list diff,
    In (max_by_len best groups) (best :: groups)
    /\ Forall (fun g => len g <= len (max_by_len best groups)) (best :: groups).
Proof.
  induction groups as [|g groups IH]; intros best; simpl.
  - split; [now left | constructor; [lia | constructor]].
  - destruct (Z.ltb_spec (len best) (len g)) as [Hlt|Hge];
      [destruct (IH g) as [Hin Hall] | destruct (IH best) as [Hin Hall]];
      apply Forall_cons_1 in Hall as [Hb Hall].
    + split; [simpl in Hin; tauto|].
      constructor; [lia|]. constructor; assumption.
    + split; [simpl in Hin; tauto|].
      constructor; [assumption|]. constructor; [lia | assumption].
Qed.

(** X22: [largest] is one of the groups and no group is longer; without a group
    there is none to take ([max] raises [ValueError]). *)
Theorem largest_spec :
  largest [] = None
  /\ forall groups : list (list diff),
       groups <> [] ->
       exists g : list diff,
         largest groups = Some g /\ In g groups
         /\ Forall (fun g' => len g' <= len g) groups.
Proof.
  split; [reflexivity|].
  intros [|g0 groups] Hne; [contradiction|]. simpl.
  exists (max_by_len g0 groups). split; [reflexivity|].
  apply max_by_len_spec.
Qed.

Lemma largest_spec_witness :
  exists g : list diff,
    largest [[(1, 0, 1)]; [(8, 0, 1); (9, 0, 1)]; [(20, 0, 1); (21, 0, 1)]]
    = Some g
    /\ In g [[(1, 0, 1)]; [(8, 0, 1); (9, 0, 1)]; [(20, 0, 1); (21, 0, 1)]]
    /\ Forall (fun g' => len g' <= len g)
         [[(1, 0, 1)]; [(8, 0, 1); (9, 0, 1)]; [(20, 0, 1); (21, 0, 1)]].
Proof.
  apply (proj2 largest_spec
           [[(1, 0, 1)]; [(8, 0, 1); (9, 0, 1)]; [(20, 0, 1); (21, 0, 1)]]).
  discriminate.
Defined.

Lemma compare_lines_ok (cc65_main : list (Z * string)) :
  forall ours_main : list (Z * string),
    length (compare_lines cc65_main ours_main).1
    = Nat.min (length cc65_main) (length ours_main)
    /\ 0 <= (compare_lines cc65_main ours_main).2
         <= Z.of_nat (Nat.min (length cc65_main) (length ours_main))
    /\ ((compare_lines cc65_main ours_main).2 = 0 <->
        forall (k : nat) (c o : Z * string),
          cc65_main !! k = Some c -> ours_main !! k = Some o ->
          normalize c.2 = normalize o.2).
Proof.
  induction cc65_main as [|c cs IH]; intros [|o os]; simpl;
    try (split; [reflexivity|]; split; [lia|];
         split; [intros _ k x y Hx Hy; now (rewrite lookup_nil in Hx
                                             || rewrite lookup_nil in Hy)
                | reflexivity]).
  destruct (IH os) as (Hlen & Hrange & Hzero).
  destruct (compare_lines cs os) as [rows m]. simpl in *.
  split; [now rewrite Hlen|].
  destruct (String.eqb_spec (normalize c.2) (normalize o.2)) as [Heq|Hne].
  - split; [lia|]. split.
    + intros Hm [|k] x y Hx Hy; simpl in *.
      * congruence.
      * eapply Hzero; eassumption.
    + intros H. apply Hzero. intros k x y Hx Hy. exact (H (S k) x y Hx Hy).
  - split; [lia|]. split; [lia|].
    intros H. exfalso. apply Hne. exact (H 0%nat c o eq_refl eq_refl).
Qed.

(** X23: The table has one row for each pair of lines up to the end of the
    shorter disassembly; the mismatch count is between 0 and the number of
    rows, and it is 0 exactly when every pair of lines has the same
    normalized text. *)
Theorem compare_lines_spec :
  forall cc65_main ours_main : list (Z * string),
    length (compare_lines cc65_main ours_main).1
    = Nat.min (length cc65_main) (length ours_main)
    /\ 0 <= (compare_lines cc65_main ours_main).2
         <= Z.of_nat (Nat.min (length cc65_main) (length ours_main))
    /\ ((compare_lines cc65_main ours_main).2 = 0 <->
        forall (k : nat) (c o : Z * string),
          cc65_main !! k = Some c -> ours_main !! k = Some o ->
          normalize c.2 = normalize o.2).
Proof. exact compare_lines_ok. Qed.

Lemma getitem_ends {A : Type} (g : list A) :
  g <> [] ->
  exists first last : A,
    getitem g 0 = Ok first /\ getitem g (-1) = Ok last /\ In first g.
Proof.
  intros Hne. destruct g as [|x g]; [contradiction|].
  destruct (exists_last (l := x :: g)) as (g' & l & Hg); [discriminate|].
  exists x, l. split; [reflexivity|]. split; [|now left].
  rewrite Hg. apply getitem_last_app.
Qed.

(** With groups that are not empty and hold offsets that are not negative,
    the disassembly stage raises nothing and both loops finish. *)
Lemma main_disassemblies_ok (cc65 ours : list byte)
    (groups : list (list diff)) :
  groups <> [] ->
  Forall (fun g => g <> [] /\ Forall (fun d => 0 <= offset d) g) groups ->
  exists cc65_main ours_main,
    main_disassemblies cc65 ours groups = Some (Ok (cc65_main, ours_main)).
Proof.
  intros Hne Hall. unfold main_disassemblies.
  destruct groups as [|g0 groups]; [contradiction|]. simpl largest.
  destruct (max_by_len_spec groups g0) as [Hin _].
  rewrite List.Forall_forall in Hall. destruct (Hall _ Hin) as [Hg Hpos].
  destruct (getitem_ends _ Hg) as (first & last & -> & -> & Hfirst).
  rewrite List.Forall_forall in Hpos. specialize (Hpos _ Hfirst).
  destruct (compare_disasm_returns cc65 (offset first)
              (offset last - offset first + 50) Hpos) as [c ->].
  destruct (compare_disasm_returns ours (offset first)
              (offset last - offset first + 50) Hpos) as [o ->].
  eauto.
Qed.

(** X24: On any two files the computations of [main] raise nothing and come to
    an end. There is a mismatch count exactly when the files differ at some
    offset of the PRG part, and it is not negative. *)
Theorem main_never_raises :
  forall cc65 ours : list byte,
    exists out : option Z,
      main_mismatches cc65 ours = Some (Ok out)
      /\ (out = None <->
          forall d : diff, is_diff cc65 ours d ->
            ~ 16 <= offset d < 16 + 32768)
      /\ (forall m : Z, out = Some m -> 0 <= m).
Proof.
  intros cc65 ours. unfold main_mismatches.
  destruct (byte_diffs_ok cc65 ours) as (ds & -> & Hds & _).
  destruct ds as [|d0 ds'].
  { exists None. split; [reflexivity|]. split; [|discriminate].
    split; [|reflexivity]. intros _ d Hd. now apply Hds in Hd. }
  cbv iota. remember (d0 :: ds') as ds eqn:Eds.
  destruct (group_diffs_ok ds) as (groups & -> & Hcat & Hgroups & _);
    [rewrite Eds; discriminate|].
  assert (Hprg : forall d, In d (prg ds) <->
                   is_diff cc65 ours d /\ 16 <= offset d < 16 + 32768).
  { intros d. unfold prg. rewrite filter_In, Hds. split; intros [H1 H2];
      (split; [assumption | lia]). }
  destruct (prg ds) as [|p ps] eqn:Eprg.
  { exists None. split; [reflexivity|]. split; [|discriminate].
    split; [|reflexivity]. intros _ d Hd Hrange.
    destruct (proj2 (Hprg d) (conj Hd Hrange)). }
  destruct (main_disassemblies_ok cc65 ours groups) as (c & o & ->).
  { intros ->. simpl in Hcat. rewrite Eds in Hcat. discriminate. }
  { rewrite List.Forall_forall in Hgroups. apply List.Forall_forall.
    intros g Hg. split; [apply (Hgroups g Hg)|].
    apply List.Forall_forall. intros d Hd.
    assert (Hin : In d ds)
      by (rewrite <- Hcat; apply in_concat; eauto).
    apply Hds in Hin as (a & b & Hrange & _). lia. }
  exists (Some (compare_lines c o).2). split; [reflexivity|]. split.
  - split; [discriminate|]. intros H. exfalso.
    destruct (proj1 (Hprg p) (or_introl eq_refl)) as [Hd Hrange].
    exact (H p Hd Hrange).
  - intros m [= <-]. apply compare_lines_ok.
Qed.

Lemma sorted_app_inv (l1 l2 : list Z) :
  StronglySorted Z.lt (l1 ++ l2) ->
  StronglySorted Z.lt l1 /\ StronglySorted Z.lt l2.
Proof.
  induction l1 as [|x l1 IH]; simpl; intros H; [split; [constructor | assumption]|].
  apply StronglySorted_inv in H as [Hs Hall].
  destruct (IH Hs) as [H1 H2]. split; [|assumption].
  constructor; [assumption|]. apply Forall_app in Hall. tauto.
Qed.

(** In a group with growing offsets the last difference is at least as
    many bytes after the first as there are differences after it, and at
    most four times as many when the group is close. *)
Lemma span_bounds (g : list diff) :
  forall x l : diff,
    StronglySorted Z.lt (map offset (x :: g)) -> last (x :: g) = Some l ->
    len g <= offset l - offset x
    /\ (close (x :: g) -> offset l - offset x <= 4 * len g).
Proof.
  induction g as [|y g IH]; intros x l Hs Hl.
  - simpl in Hl. injection Hl as <-. unfold len. simpl. lia.
  - change (last (x :: y :: g)) with (last (y :: g)) in Hl.
    simpl map in Hs. apply StronglySorted_inv in Hs as [Hs Hall].
    apply Forall_cons_1 in Hall as [Hxy _].
    destruct (IH y l Hs Hl) as [Hlow Hhigh].
    replace (len (y :: g)) with (1 + len g) by (unfold len; simpl length; lia).
    split; [lia|]. intros [Hc Hclose]. specialize (Hhigh Hclose). lia.
Qed.

Lemma group_summary_ok (g : list diff) :
  g <> [] -> Forall (fun d => 0 <= offset d) g ->
  StronglySorted Z.lt (map offset g) -> close g ->
  exists line, group_summary g = Ok line /\ summary_ok line.
Proof.
  intros Hne Hpos Hs Hc. destruct g as [|x g]; [contradiction|].
  destruct (exists_last (l := x :: g)) as (g' & l & Hg); [discriminate|].
  assert (Hlast : getitem (x :: g) (-1) = Ok l)
    by (rewrite Hg; apply getitem_last_app).
  unfold group_summary. rewrite getitem_head, bind_Ok_l, Hlast, bind_Ok_l.
  eexists. split; [reflexivity|].
  assert (Hl : last (x :: g) = Some l) by (rewrite Hg; apply last_snoc).
  destruct (span_bounds g x l Hs Hl) as [Hlow Hhigh]. specialize (Hhigh Hc).
  apply Forall_cons_1 in Hpos as [Hx _].
  replace (len (x :: g)) with (1 + len g) by (unfold len; simpl length; lia).
  pose proof (len_nonneg g). unfold summary_ok. lia.
Qed.

Lemma group_summaries_ok (groups : list (list diff)) :
  Forall (fun g => g <> [] /\ close g) groups ->
  Forall (fun d => 0 <= offset d) (concat groups) ->
  StronglySorted Z.lt (map offset (concat groups)) ->
  exists lines, group_summaries groups = Ok lines
    /\ Forall summary_ok lines /\ length lines = length groups.
Proof.
  induction groups as [|g groups IH]; intros Hg Hpos Hs.
  - exists []. repeat split; constructor.
  - apply Forall_cons_1 in Hg as [[Hne Hc] Hg].
    simpl concat in Hpos, Hs. apply Forall_app in Hpos as [Hpos1 Hpos2].
    rewrite map_app in Hs. apply sorted_app_inv in Hs as [Hs1 Hs2].
    destruct (group_summary_ok g Hne Hpos1 Hs1 Hc) as (line & Hline & Hok).
    destruct (IH Hg Hpos2 Hs2) as (rest & Hrest & Hoks & Hlen).
    exists (line :: rest). simpl. rewrite Hline, bind_Ok_l, Hrest, bind_Ok_l.
    split; [reflexivity|]. split; [constructor; assumption|].
    simpl. now rewrite Hlen.
Qed.

(** X25: For any two files the group lines are computed without an exception,
    and each is sound: a start offset that is not negative with its
    translated address, at least one difference, and a byte span between
    the number of differences and four times that number minus three. *)
Theorem main_group_lines_sound :
  forall cc65 ours : list byte,
    exists lines : list (Z * Z * Z * Z),
      main_group_lines cc65 ours = Ok lines /\ Forall summary_ok lines.
Proof.
  intros cc65 ours. unfold main_group_lines.
  destruct (byte_diffs_ok cc65 ours) as (ds & -> & Hds & Hs).
  rewrite bind_Ok_l. destruct ds as [|d0 ds'].
  { exists []. split; [reflexivity | constructor]. }
  remember (d0 :: ds') as ds eqn:Eds.
  destruct (group_diffs_ok ds) as (groups & -> & Hcat & Hgroups & _);
    [rewrite Eds; discriminate|].
  rewrite bind_Ok_l.
  destruct (group_summaries_ok groups) as (lines & -> & Hok & _);
    rewrite ?Hcat; try assumption.
  - apply List.Forall_forall. intros d Hd.
    apply Hds in Hd as (a & b & Hrange & _). lia.
  - eauto.
Qed.

End MainDiffs.

(* ===================================================================== *)
(** ** scripts/compare_rom.py: counting the copies of the text *)
(* ===================================================================== *)

Section StringCopies.

Import CompareRom.

Lemma starts_at_true (s sub : list byte) (i : Z) :
  starts_at s sub i = true <-> slice s i (i + len sub) = sub.
Proof.
  unfold starts_at.
  destruct (List.list_eq_dec Byte.byte_eq_dec (slice s i (i + len sub)) sub);
    split; congruence.
Qed.

(** A scan returns -1 when [sub] is at none of the positions, and otherwise
    the first position where it is. *)
Lemma find_at_spec (s sub : list byte) (n : nat) :
  forall i : Z, 0 <= i ->
    (find_at s sub i n = -1
     /\ forall j, i <= j < i + Z.of_nat n -> starts_at s sub j = false)
    \/ (i <= find_at s sub i n < i + Z.of_nat n
        /\ starts_at s sub (find_at s sub i n) = true
        /\ forall j, i <= j < find_at s sub i n -> starts_at s sub j = false).
Proof.
  induction n as [|n IH]; intros i Hi; simpl find_at.
  - left. split; [reflexivity | intros j Hj; lia].
  - destruct (starts_at s sub i) eqn:Hs.
    + right. split; [lia|]. split; [assumption | intros j Hj; lia].
    + destruct (IH (i + 1) ltac:(lia)) as [[Hr Hnone] | (Hr & Hfound & Hleast)].
      * left. split; [assumption|]. intros j Hj.
        destruct (Z.eq_dec j i) as [->|]; [assumption | apply Hnone; lia].
      * right. split; [lia|]. split; [assumption|]. intros j Hj.
        destruct (Z.eq_dec j i) as [->|]; [assumption | apply Hleast; lia].
Qed.

(** [find] from a start that is not negative: -1 when [sub] is nowhere
    from [start] on, and otherwise the lowest index from [start] on where
    it is, whole inside [s]. *)
Lemma find_spec (s sub : list byte) (start : Z) :
  0 <= start ->
  (find s sub start = -1
   /\ forall j, start <= j <= len s - len sub -> starts_at s sub j = false)
  \/ (start <= find s sub start <= len s - len sub
      /\ starts_at s sub (find s sub start) = true
      /\ forall j, start <= j < find s sub start -> starts_at s sub j = false).
Proof.
  intros Hstart. unfold find.
  destruct (Z.ltb_spec start 0); [lia|].
  destruct (Z.ltb_spec (len s - start) (len sub)).
  - left. split; [reflexivity | intros j Hj; lia].
  - destruct (find_at_spec s sub (Z.to_nat (len s - start - len sub + 1))
                start Hstart) as [[Hr Hnone] | (Hr & Hfound & Hleast)].
    + left. split; [assumption|]. intros j Hj. apply Hnone. lia.
    + right. split; [lia|]. split; assumption.
Qed.

Lemma slice_full_length {A : Type} (l : list A) (lo n : Z) :
  0 <= lo -> 0 < n -> len (slice l lo (lo + n)) = n -> lo + n <= len l.
Proof.
  unfold slice, clip, len. rewrite length_take, length_drop.
  destruct (Z.ltb_spec lo 0), (Z.ltb_spec (lo + n) 0); lia.
Qed.

Lemma needle_at (rom : list byte) (j : Z) :
  0 <= j -> slice rom j (j + 4) = needle -> j <= len rom - len needle.
Proof.
  intros Hj H. change (len needle) with 4.
  pose proof (slice_full_length rom j 4 Hj ltac:(lia)) as Hlen.
  rewrite H in Hlen. specialize (Hlen eq_refl). lia.
Qed.

(** The counting loop ends with enough fuel; each copy counted moves the
    search on by at least 30 bytes; and something is counted exactly when
    the first search finds a copy. *)
Lemma count_loop_spec (fuel : nat) :
  forall (rom : list byte) (idx count : Z),
    0 <= idx -> len rom - idx <= Z.of_nat fuel ->
    exists r : Z,
      count_loop fuel rom idx count = Some r
      /\ count <= r
      /\ 30 * (r - count) <= Z.max 0 (len rom - idx + 26)
      /\ (count < r <-> 0 <= find rom needle idx).
Proof.
  induction fuel as [|fuel IH]; intros rom idx count Hidx Hfuel;
    simpl count_loop;
    destruct (find_spec rom needle idx Hidx) as [[Hf _] | (Hf & _ & _)];
    change (len needle) with 4 in *.
  - rewrite Hf. simpl. exists count. repeat split; lia.
  - lia.
  - rewrite Hf. simpl. exists count. repeat split; lia.
  - destruct (Z.ltb_spec (find rom needle idx) 0); [lia|].
    destruct (IH rom (find rom needle idx + 30) (count + 1))
      as (r & Hr & Hle & Hbound & _); [lia | lia |].
    exists r. split; [assumption|]. repeat split; lia.
Qed.

(** X26: The count of copies of "LOL!" is always reached; with [n] copies
    counted, [30 * n] is at most the size of the file plus 10. When the
    count is 0 the text is nowhere from offset 16 on, and nothing is
    printed; otherwise the address printed is the translation of the first
    offset from 16 on where the text is. *)
Theorem string_copies_spec :
  forall rom : list byte,
    exists out : option (Z * Z),
      string_copies rom = Some out
      /\ match out with
         | None =>
             forall j : Z, 16 <= j -> slice rom j (j + 4) <> needle
         | Some (count, nes_addr) =>
             1 <= count /\ 30 * count <= len rom + 10
             /\ exists first : Z,
                  nes_addr = 0x8000 + (first - 16)
                  /\ 16 <= first
                  /\ slice rom first (first + 4) = needle
                  /\ forall j : Z,
                       16 <= j < first -> slice rom j (j + 4) <> needle
         end.
Proof.
  intros rom. unfold string_copies, count_copies.
  pose proof (len_nonneg rom) as Hlen.
  destruct (count_loop_spec (Z.to_nat (len rom)) rom 16 0)
    as (count & -> & Hle & Hbound & Hiff); [lia | lia |].
  destruct (find_spec rom needle 16 ltac:(lia))
    as [[Hf Hnone] | (Hf & Hfound & Hleast)];
    change (len needle) with 4 in *.
  - assert (count = 0) by lia. subst count. simpl.
    exists None. split; [reflexivity|]. intros j Hj Heq.
    pose proof (needle_at rom j ltac:(lia) Heq) as Hin.
    change (len needle) with 4 in Hin.
    specialize (Hnone j ltac:(lia)).
    apply (proj2 (starts_at_true rom needle j)) in Heq. congruence.
  - assert (0 < count) by (apply Hiff; lia).
    destruct (Z.gtb_spec count 0); [|lia].
    eexists (Some (count, _)). split; [reflexivity|].
    split; [lia|]. split; [lia|].
    exists (find rom needle 16). split; [reflexivity|]. split; [lia|].
    split; [now apply starts_at_true in Hfound|].
    intros j Hj Heq. specialize (Hleast j Hj).
    apply (proj2 (starts_at_true rom needle j)) in Heq. congruence.
Qed.

End StringCopies.
